(** * ghm: merge-settings reconciliation (src/ghm/repos.py, src/ghm/main.py)

    A shallow embedding of the reconciliation engine of the [ghm] command
    line tool.  The pure parts ([RepoSettings], the two [needs_*_update]
    predicates, the construction of the change dictionary) are plain
    functions.  The parts that talk to GitHub and to the console are
    written in a small state-and-exception monad over an abstract GitHub
    client, so that the number and the payload of the write calls can be
    read off the final state. *)

From stdpp Require Import base gmap strings list pretty.

Open Scope string_scope.

(** ** Python values *)

(** Truthiness of an [Optional[str]]: [None] and the empty string are
    falsy, every other string is truthy. *)
Definition truthy (o : option string) : bool :=
  match o with
  | Some (String _ _) => true
  | _ => false
  end.

(** [a != b] on [Optional[str]] values. *)
Definition py_ne (a b : option string) : bool := bool_decide (a ≠ b).

(** [needle in hay] on strings. *)
Fixpoint str_in (needle hay : string) : bool :=
  String.prefix needle hay ||
  match hay with
  | EmptyString => false
  | String _ rest => str_in needle rest
  end.

(** [any(xs)] on a list of already evaluated truth values. *)
Definition any (xs : list bool) : bool := existsb id xs.

(** ** The data model *)

(** The attributes of a PyGithub [Repository] object that the tool reads. *)
Record Repository := mkRepository {
  repo_name : string;
  repo_full_name : string;
  repo_archived : bool;
  repo_fork : bool;
  repo_allow_squash_merge : bool;
  repo_squash_merge_commit_title : option string;
  repo_squash_merge_commit_message : option string;
  repo_allow_merge_commit : bool;
  repo_merge_commit_title : option string;
  repo_merge_commit_message : option string;
  repo_allow_rebase_merge : bool
}.

(** [class RepoSettings] *)
Record RepoSettings := mkRepoSettings {
  name : string;
  full_name : string;
  is_archived : bool;
  is_fork : bool;
  allow_squash_merge : bool;
  squash_merge_commit_title : option string;
  squash_merge_commit_message : option string;
  allow_merge_commit : bool;
  merge_commit_title : option string;
  merge_commit_message : option string;
  allow_rebase_merge : bool
}.

(** [RepoSettings.from_repo] *)
Definition from_repo (repo : Repository) : RepoSettings :=
  {| name := repo_name repo;
     full_name := repo_full_name repo;
     is_archived := repo_archived repo;
     is_fork := repo_fork repo;
     allow_squash_merge := repo_allow_squash_merge repo;
     squash_merge_commit_title := repo_squash_merge_commit_title repo;
     squash_merge_commit_message := repo_squash_merge_commit_message repo;
     allow_merge_commit := repo_allow_merge_commit repo;
     merge_commit_title := repo_merge_commit_title repo;
     merge_commit_message := repo_merge_commit_message repo;
     allow_rebase_merge := repo_allow_rebase_merge repo |}.

(** [RepoSettings.needs_squash_update] *)
Definition needs_squash_update (self : RepoSettings) (title message : string) : bool :=
  if negb (allow_squash_merge self) then false
  else py_ne (squash_merge_commit_title self) (Some title)
       || py_ne (squash_merge_commit_message self) (Some message).

(** [RepoSettings.needs_merge_update] *)
Definition needs_merge_update (self : RepoSettings) (title message : string) : bool :=
  if negb (allow_merge_commit self) then false
  else py_ne (merge_commit_title self) (Some title)
       || py_ne (merge_commit_message self) (Some message).

(** The four optional keyword arguments shared by [update_repo_settings],
    [bulk_update_repos] and the [update-merge] command. *)
Record Desired := mkDesired {
  squash_title : option string;
  squash_message : option string;
  merge_title : option string;
  merge_message : option string
}.

(** ** The change dictionary *)

Definition K_squash_title : string := "squash_merge_commit_title".
Definition K_squash_message : string := "squash_merge_commit_message".
Definition K_merge_title : string := "merge_commit_title".
Definition K_merge_message : string := "merge_commit_message".

(** One of the four guarded assignments of [update_repo_settings]:
[[
    if desired and enabled:
        if current != desired:
            changes[key] = desired
]]
*)
Definition consider (key : string) (desired : option string) (enabled : bool)
    (current : option string) (changes : gmap string string) : gmap string string :=
  if truthy desired && enabled then
    if py_ne current desired then
      match desired with
      | Some v => <[key := v]> changes
      | None => changes
      end
    else changes
  else changes.

(** The [changes] dictionary of [update_repo_settings], as it stands after
    the four guarded assignments. *)
Definition build_changes (settings : RepoSettings) (d : Desired) : gmap string string :=
  let changes : gmap string string := ∅ in
  let changes := consider K_squash_title (squash_title d)
                   (allow_squash_merge settings) (squash_merge_commit_title settings) changes in
  let changes := consider K_squash_message (squash_message d)
                   (allow_squash_merge settings) (squash_merge_commit_message settings) changes in
  let changes := consider K_merge_title (merge_title d)
                   (allow_merge_commit settings) (merge_commit_title settings) changes in
  let changes := consider K_merge_message (merge_message d)
                   (allow_merge_commit settings) (merge_commit_message settings) changes in
  changes.

(** The keys are inserted in this order and are pairwise distinct, so
    [changes.items()] enumerates the dictionary along it. *)
Definition insertion_order : list string :=
  [K_squash_title; K_squash_message; K_merge_title; K_merge_message].

Definition items (changes : gmap string string) : list (string * string) :=
  omap (λ k, (λ v, (k, v)) <$> changes !! k) insertion_order.

(** ** Exceptions, the GitHub client and the console *)

(** A raised [Exception]; [exn_str e] is [str(e)]. *)
Record exn := Exception { exn_str : string }.

Inductive result (A : Type) : Type :=
| Ok (a : A)
| Raised (e : exn).
Arguments Ok {A} a.
Arguments Raised {A} e.

(** The two requests the engine sends through the authenticated client:
    [github_client.get_repo(full_name)] and [repo.edit], the latter called
    with the entries of [changes] as keyword arguments.  What they answer
    is GitHub's business, so both are left abstract; either may raise, and
    either may change the remote state [W]. *)
Class Github (W : Type) := {
  gh_get_repo : string → W → result Repository * W;
  gh_edit : Repository → gmap string string → W → result unit * W
}.

(** The requests sent so far, oldest first. *)
Inductive ApiCall :=
| CallGetRepo (repo_full_name : string)
| CallEdit (repo : Repository) (changes : gmap string string).

Definition is_edit (c : ApiCall) : bool :=
  match c with
  | CallEdit _ _ => true
  | CallGetRepo _ => false
  end.

Record State (W : Type) := mkState {
  world : W;
  console : list string;
  calls : list ApiCall
}.
Arguments mkState {W} world console calls.
Arguments world {W} s.
Arguments console {W} s.
Arguments calls {W} s.

(** Number of [repo.edit] requests recorded in a state. *)
Definition edit_count {W} (st : State W) : nat := length (filter is_edit (calls st)).

Definition M (W A : Type) : Type := State W → result A * State W.

Definition ret {W A} (a : A) : M W A := λ st, (Ok a, st).

Definition bind {W A B} (m : M W A) (k : A → M W B) : M W B :=
  λ st, match m st with
        | (Ok a, st') => k a st'
        | (Raised e, st') => (Raised e, st')
        end.

Notation "'let*' x ':=' m 'in' k" := (bind m (λ x, k))
  (at level 10, x pattern, m at level 100, k at level 200).
Notation "m ';;' k" := (bind m (λ _, k))
  (at level 100, k at level 200, right associativity).

(** [try: body  except Exception as e: handler(e)]; the state reached when
    the exception was raised is the one the handler starts from. *)
Definition try_except {W A} (body : M W A) (handler : exn → M W A) : M W A :=
  λ st, match body st with
        | (Ok a, st') => (Ok a, st')
        | (Raised e, st') => handler e st'
        end.

(** [console.print(line)] *)
Definition console_print {W} (line : string) : M W unit :=
  λ st, (Ok tt, mkState (world st) (console st ++ [line]) (calls st)).

(** [for x in xs: body(x)] *)
Fixpoint for_each {W A} (xs : list A) (body : A → M W unit) : M W unit :=
  match xs with
  | [] => ret tt
  | x :: rest => body x;; for_each rest body
  end.

(** [github_client.get_repo(repo_full_name)] *)
Definition get_repo {W} `{Github W} (repo_full_name : string) : M W Repository :=
  λ st, let '(r, w) := gh_get_repo repo_full_name (world st) in
        (r, mkState w (console st) (calls st ++ [CallGetRepo repo_full_name])).

(** [repo.edit], called with the entries of [changes] as keyword arguments *)
Definition edit {W} `{Github W} (repo : Repository) (changes : gmap string string) : M W unit :=
  λ st, let '(r, w) := gh_edit repo changes (world st) in
        (r, mkState w (console st) (calls st ++ [CallEdit repo changes])).

(** ** The reconciliation engine *)

Definition hint_404 : string :=
  "404 Not Found (Check permissions or if target is an organization)".

Definition msg_no_changes (repo_full_name : string) : string :=
  "[dim]" +:+ repo_full_name +:+ ": No changes needed[/dim]".

Definition msg_would_update (repo_full_name : string) : string :=
  "[yellow]" +:+ repo_full_name +:+ ": Would update:[/yellow]".

Definition msg_change (key value : string) : string :=
  "  " +:+ key +:+ ": " +:+ value.

Definition msg_updated (repo_full_name : string) : string :=
  "[green]✓ " +:+ repo_full_name +:+ ": Updated successfully[/green]".

Definition msg_failed (repo_full_name error_msg : string) : string :=
  "[red]✗ " +:+ repo_full_name +:+ ": Failed - " +:+ error_msg +:+ "[/red]".

Definition msg_not_applicable (repo_full_name : string) : string :=
  "[dim]" +:+ repo_full_name +:+ ": No applicable merge methods enabled[/dim]".

(** [update_repo_settings] *)
Definition update_repo_settings {W} `{Github W}
    (repo_full_name : string) (d : Desired) (dry_run : bool) : M W bool :=
  let* repo := get_repo repo_full_name in
  let settings := from_repo repo in
  let changes := build_changes settings d in
  if bool_decide (changes = ∅) then
    console_print (msg_no_changes repo_full_name);;
    ret true
  else if dry_run then
    console_print (msg_would_update repo_full_name);;
    for_each (items changes) (λ kv, console_print (msg_change kv.1 kv.2));;
    ret true
  else
    try_except
      (edit repo changes;;
       console_print (msg_updated repo_full_name);;
       ret true)
      (λ e,
       let error_msg := exn_str e in
       let error_msg := if str_in "404" error_msg then hint_404 else error_msg in
       console_print (msg_failed repo_full_name error_msg);;
       ret false).

(** The local [needs_update] of the loop body of [bulk_update_repos]. *)
Definition needs_update (repo_settings : RepoSettings) (d : Desired) : bool :=
  let needs_update := false in
  let needs_update :=
    if truthy (squash_title d) || truthy (squash_message d) then
      if allow_squash_merge repo_settings then true else needs_update
    else needs_update in
  let needs_update :=
    if truthy (merge_title d) || truthy (merge_message d) then
      if allow_merge_commit repo_settings then true else needs_update
    else needs_update in
  needs_update.

(** The [for repo_settings in repos] loop of [bulk_update_repos], with the
    two counters it carries. *)
Fixpoint bulk_loop {W} `{Github W} (repos : list RepoSettings) (d : Desired)
    (dry_run : bool) (success_count total_count : nat) : M W (nat * nat) :=
  match repos with
  | [] => ret (success_count, total_count)
  | repo_settings :: rest =>
      if negb (needs_update repo_settings d) then
        console_print (msg_not_applicable (full_name repo_settings));;
        bulk_loop rest d dry_run success_count total_count
      else
        let total_count := total_count + 1 in
        let* ok := update_repo_settings (full_name repo_settings) d dry_run in
        let success_count := if ok then success_count + 1 else success_count in
        bulk_loop rest d dry_run success_count total_count
  end.

(** [bulk_update_repos] *)
Definition bulk_update_repos {W} `{Github W} (repos : list RepoSettings) (d : Desired)
    (dry_run : bool) : M W (nat * nat) :=
  let success_count := 0 in
  let total_count := 0 in
  bulk_loop repos d dry_run success_count total_count.

(** ** The [update-merge] command (main.py) *)

(** How a command function ends: it returns, or it raises [typer.Exit(code)]. *)
Inductive outcome :=
| Returned
| Exit (code : nat).

Definition nl : string := String (Ascii.ascii_of_nat 10) EmptyString.

Definition msg_no_setting : string :=
  "[red]Error: At least one merge setting must be specified[/red]" +:+ nl +:+
  "Use --squash-title, --squash-message, --merge-title, or --merge-message".

Definition msg_error (e : exn) : string := "[red]Error: " +:+ exn_str e +:+ "[/red]".

Section Command.
Context {W : Type} `{Github W}.

(** [create_github_client] builds the client handle from a token found in
    the arguments, the environment or the [gh] tool; [list_org_repos] is
    imported from [ghm.repos] by main.py, while repos.py defines the
    catalog fetch under the name [get_target_repos].  Both are taken as
    given here, and so is closing the client. *)
Variable create_github_client : option string → M W unit.
Variable list_org_repos : string → bool → bool → M W (list RepoSettings).
Variable client_close : M W unit.

(** The [try] block of [update_merge_settings]. *)
Definition update_merge_body (org : string) (d : Desired)
    (include_archived include_forks dry_run : bool) (token : option string) : M W unit :=
  create_github_client token;;
  console_print ("[bold]Organization:[/bold] " +:+ org);;
  (if dry_run then
     console_print ("[yellow]Mode: DRY RUN (use --apply to make changes)[/yellow]" +:+ nl)
   else
     console_print ("[red]Mode: APPLY (making real changes)[/red]" +:+ nl));;
  let* repos := list_org_repos org include_archived include_forks in
  console_print (nl +:+ "[bold]Found " +:+ pretty (length repos) +:+ " repositories[/bold]" +:+ nl);;
  let* st := bulk_update_repos repos d dry_run in
  let success := st.1 in
  let total := st.2 in
  console_print (nl +:+ "[bold]Summary:[/bold]");;
  console_print ("  Processed: " +:+ pretty total +:+ " repositories");;
  (if dry_run then
     console_print ("  Would update: " +:+ pretty success +:+ " repositories");;
     console_print (nl +:+ "[yellow]Run with --apply to make changes[/yellow]")
   else
     console_print ("  [green]Updated: " +:+ pretty success +:+ " repositories[/green]");;
     if bool_decide (success < total) then
       console_print ("  [red]Failed: " +:+ pretty (total - success) +:+ " repositories[/red]")
     else ret tt);;
  client_close.

(** [update_merge_settings] *)
Definition update_merge_settings (org : string) (d : Desired)
    (include_archived include_forks dry_run : bool) (token : option string)
    : State W → outcome * State W :=
  λ st,
  if negb (any [truthy (squash_title d); truthy (squash_message d);
                truthy (merge_title d); truthy (merge_message d)]) then
    (Exit 1, (console_print msg_no_setting st).2)
  else
    match update_merge_body org d include_archived include_forks dry_run token st with
    | (Ok _, st') => (Returned, st')
    | (Raised e, st') => (Exit 1, (console_print (msg_error e) st').2)
    end.
End Command.

(** ** An in-memory GitHub *)

(** What a successful [repo.edit] leaves behind: each format field named
    in [changes] takes the new value, every other attribute stays. *)
Definition patched (changes : gmap string string) (key : string)
    (current : option string) : option string :=
  match changes !! key with
  | Some v => Some v
  | None => current
  end.

Definition patch (changes : gmap string string) (r : Repository) : Repository :=
  {| repo_name := repo_name r;
     repo_full_name := repo_full_name r;
     repo_archived := repo_archived r;
     repo_fork := repo_fork r;
     repo_allow_squash_merge := repo_allow_squash_merge r;
     repo_squash_merge_commit_title :=
       patched changes K_squash_title (repo_squash_merge_commit_title r);
     repo_squash_merge_commit_message :=
       patched changes K_squash_message (repo_squash_merge_commit_message r);
     repo_allow_merge_commit := repo_allow_merge_commit r;
     repo_merge_commit_title :=
       patched changes K_merge_title (repo_merge_commit_title r);
     repo_merge_commit_message :=
       patched changes K_merge_message (repo_merge_commit_message r);
     repo_allow_rebase_merge := repo_allow_rebase_merge r |}.

(** A remote made of the repositories the token can see, keyed by full
    name, and of the repositories on which an edit is refused, with the
    message of the error raised. *)
Record Store := mkStore {
  store_repos : gmap string Repository;
  store_refused : gmap string string
}.

Definition store_get_repo (full_name : string) (w : Store) : result Repository * Store :=
  match store_repos w !! full_name with
  | Some r => (Ok r, w)
  | None => (Raised (Exception "404 Not Found"), w)
  end.

Definition store_edit (repo : Repository) (changes : gmap string string) (w : Store)
    : result unit * Store :=
  match store_refused w !! repo_full_name repo with
  | Some msg => (Raised (Exception msg), w)
  | None =>
      (Ok tt, mkStore (<[repo_full_name repo := patch changes repo]> (store_repos w))
                      (store_refused w))
  end.

#[export] Instance store_github : Github Store :=
  {| gh_get_repo := store_get_repo; gh_edit := store_edit |}.

Definition store_of (rs : list Repository) (refused : gmap string string) : Store :=
  mkStore (list_to_map ((λ r, (repo_full_name r, r)) <$> rs)) refused.

Definition init {W} (w : W) : State W := mkState w [] [].

(** Repositories used in the examples. *)
Definition mk_repo (name full_name : string) (squash : bool) (st sm : option string)
    (merge : bool) (mt mm : option string) : Repository :=
  mkRepository name full_name false false squash st sm merge mt mm true.

Definition repo_a : Repository :=
  mk_repo "a" "acme/a" true (Some "COMMIT_OR_PR_TITLE") (Some "PR_BODY")
          false (Some "MERGE_MESSAGE") (Some "PR_TITLE").

Definition repo_b : Repository :=
  mk_repo "b" "acme/b" true (Some "PR_TITLE") (Some "PR_BODY")
          true (Some "MERGE_MESSAGE") (Some "PR_TITLE").

Definition repo_c : Repository :=
  mk_repo "c" "acme/c" false (Some "COMMIT_OR_PR_TITLE") (Some "COMMIT_MESSAGES")
          false (Some "MERGE_MESSAGE") (Some "PR_TITLE").

Definition fix_squash : Desired :=
  mkDesired (Some "PR_TITLE") (Some "PR_BODY") None None.

(** The line [update_repo_settings] prints when the edit raised [e]. *)
Definition failure_line (repo_full_name : string) (e : exn) : string :=
  msg_failed repo_full_name
    (if str_in "404" (exn_str e) then hint_404 else exn_str e).

(** What the spec calls a ChangeSet entry that is due: the desired value is
    present (given, and not the empty string, which Python treats as
    false), the governing merge method is enabled, and the current value
    is another one. *)
Definition due (desired : option string) (enabled : bool) (current : option string)
    (v : string) : Prop :=
  desired = Some v ∧ v ≠ EmptyString ∧ enabled = true ∧ current ≠ Some v.

(** A request that keeps to the merge methods the edited repository has
    enabled: an edit names format fields only, and none of a disabled
    method. *)
Definition respects_methods (c : ApiCall) : Prop :=
  match c with
  | CallGetRepo _ => True
  | CallEdit repo changes =>
      dom changes ⊆ list_to_set insertion_order
      ∧ (repo_allow_squash_merge repo = false →
         changes !! K_squash_title = None ∧ changes !! K_squash_message = None)
      ∧ (repo_allow_merge_commit repo = false →
         changes !! K_merge_title = None ∧ changes !! K_merge_message = None)
  end.

(** Nothing but this tool touches repository [n] while it is reconciled
    from remote state [w]: what was just read is read again, and once the
    edit carrying the changes has succeeded, the record is read back with
    those changes in place. *)
Definition undisturbed {W} `{Github W} (n : string) (d : Desired) (w : W) : Prop :=
  ∀ repo w1, gh_get_repo n w = (Ok repo, w1) →
    (gh_get_repo n w1).1 = Ok repo
    ∧ ∀ w2, gh_edit repo (build_changes (from_repo repo) d) w1 = (Ok tt, w2) →
            (gh_get_repo n w2).1 = Ok (patch (build_changes (from_repo repo) d) repo).

(** A desired configuration with its empty strings taken out. *)
Definition absent_if_empty (o : option string) : option string :=
  match o with
  | Some EmptyString => None
  | _ => o
  end.

Definition without_empty (d : Desired) : Desired :=
  mkDesired (absent_if_empty (squash_title d)) (absent_if_empty (squash_message d))
            (absent_if_empty (merge_title d)) (absent_if_empty (merge_message d)).

Definition all_empty : Desired :=
  mkDesired (Some EmptyString) (Some EmptyString) (Some EmptyString) (Some EmptyString).


(** ** Token discovery (auth.py) *)

(** How [subprocess.run(["gh", "auth", "token"], capture_output=True,
    text=True, check=True)] ends: with the standard output of a [gh] that
    exited with status 0, with [CalledProcessError] (non-zero status),
    with [FileNotFoundError] (no [gh] on the path), or with another
    exception. *)
Inductive gh_run :=
| GhStdout (stdout : string)
| GhCalledProcessError
| GhFileNotFoundError
| GhRaises (e : exn).

(** What [get_github_token] reads from the process it runs in. *)
Record Os := mkOs {
  environ : gmap string string;
  gh_auth_token : gh_run
}.

Definition msg_env_token : string :=
  "[dim]Using token from GITHUB_TOKEN environment variable[/dim]".

Definition msg_gh_token : string :=
  "[dim]Using token from gh CLI (gh auth token)[/dim]".

Definition msg_no_token : string :=
  "No GitHub token found. Please either:" +:+ nl +:+
  "  1. Set GITHUB_TOKEN environment variable" +:+ nl +:+
  "  2. Log in with: gh auth login" +:+ nl +:+
  "  3. Pass token explicitly with --token".

(** A PyGithub client handle: the token it authenticates with and the API
    it talks to. *)
Record Client := mkClient {
  client_token : string;
  client_base_url : string
}.

Section Auth.
(** [str.strip] of the Python runtime. *)
Variable strip : string → string.

(** [get_github_token]; the second component lists the lines printed. *)
Definition get_github_token (token : option string) (os : Os)
    : result string * list string :=
  match token with
  | Some (String c s) => (Ok (String c s), [])
  | _ =>
      let env_token := environ os !! "GITHUB_TOKEN" in
      match env_token with
      | Some (String c s) => (Ok (String c s), [msg_env_token])
      | _ =>
          match gh_auth_token os with
          | GhStdout stdout =>
              let gh_token := strip stdout in
              if truthy (Some gh_token) then (Ok gh_token, [msg_gh_token])
              else (Raised (Exception msg_no_token), [])
          | GhCalledProcessError | GhFileNotFoundError =>
              (Raised (Exception msg_no_token), [])
          | GhRaises e => (Raised e, [])
          end
      end
  end.

(** [create_github_client] *)
Definition create_github_client (token : option string) (base_url : string) (os : Os)
    : result Client * list string :=
  match get_github_token token os with
  | (Ok github_token, out) => (Ok (mkClient github_token base_url), out)
  | (Raised e, out) => (Raised e, out)
  end.
End Auth.

Definition default_base_url : string := "https://api.github.com".

(** [create_github_client] as a step of a command: the lines it prints go
    to the console, the client handle is kept by the caller. *)
Definition resolve_client {W} (strip : string → string) (os : Os)
    (token : option string) : M W unit :=
  λ st,
  match create_github_client strip token default_base_url os with
  | (Ok _, out) => (Ok tt, mkState (world st) (console st ++ out) (calls st))
  | (Raised e, out) => (Raised e, mkState (world st) (console st ++ out) (calls st))
  end.

(** ** The repository catalog (repos.py) *)

(** What [get_organization] and [get_user] return. *)
Inductive Owner :=
| Organization (login : string)
| NamedUser (login : string).

(** The listing requests of the client: [get_organization(target)],
    [get_user(target)] and [list(owner.get_repos())]. *)
Class GithubCatalog (W : Type) := {
  gh_get_organization : string → W → result Owner * W;
  gh_get_user : string → W → result Owner * W;
  gh_get_repos : Owner → W → result (list Repository) * W
}.

Definition request {W A} (f : W → result A * W) : M W A :=
  λ st, let '(r, w) := f (world st) in (r, mkState w (console st) (calls st)).

(** The [for repo in all_repos] loop of [get_target_repos], with the list
    and the two counters it builds. *)
Fixpoint filter_loop (all_repos : list Repository) (include_archived include_forks : bool)
    (filtered_repos : list Repository) (skipped_archived skipped_forks : nat)
    : list Repository * nat * nat :=
  match all_repos with
  | [] => (filtered_repos, skipped_archived, skipped_forks)
  | repo :: rest =>
      if negb include_archived && repo_archived repo then
        filter_loop rest include_archived include_forks
          filtered_repos (skipped_archived + 1) skipped_forks
      else if negb include_forks && repo_fork repo then
        filter_loop rest include_archived include_forks
          filtered_repos skipped_archived (skipped_forks + 1)
      else
        filter_loop rest include_archived include_forks
          (filtered_repos ++ [repo])%list skipped_archived skipped_forks
  end.

(** The [for repo in repos] loop of [fetch_repos_settings]. *)
Fixpoint fetch_loop (repos : list Repository) (repos_settings : list RepoSettings)
    : list RepoSettings :=
  match repos with
  | [] => repos_settings
  | repo :: rest =>
      let settings := from_repo repo in
      fetch_loop rest (repos_settings ++ [settings])%list
  end.

(** [fetch_repos_settings].  The progress display that rich draws around
    the loop is not part of [console]. *)
Definition fetch_repos_settings (repos : list Repository) : list RepoSettings :=
  match repos with
  | [] => []
  | [repo] => [from_repo repo]
  | _ => fetch_loop repos []
  end.

(** [get_target_repos] *)
Definition get_target_repos {W} `{Github W} `{GithubCatalog W}
    (target : string) (include_archived include_forks : bool) : M W (list RepoSettings) :=
  if str_in "/" target then
    console_print ("[dim]Fetching single repository " +:+ target +:+ "...[/dim]");;
    let* repo := get_repo target in
    ret [from_repo repo]
  else
    let* owner :=
      try_except
        (let* owner := request (gh_get_organization target) in
         console_print ("[dim]Fetching repositories from organization "
                        +:+ target +:+ "...[/dim]");;
         ret owner)
        (λ _,
         let* owner := request (gh_get_user target) in
         console_print ("[dim]Fetching repositories from user " +:+ target +:+ "...[/dim]");;
         ret owner) in
    let* all_repos := request (gh_get_repos owner) in
    console_print ("[dim]Found " +:+ pretty (length all_repos) +:+ " total repositories[/dim]");;
    let r := filter_loop all_repos include_archived include_forks [] 0 0 in
    let filtered_repos := r.1.1 in
    let skipped_archived := r.1.2 in
    let skipped_forks := r.2 in
    (if bool_decide (0 < skipped_archived) then
       console_print ("[dim]Skipping " +:+ pretty skipped_archived
                      +:+ " archived repositories[/dim]")
     else ret tt);;
    (if bool_decide (0 < skipped_forks) then
       console_print ("[dim]Skipping " +:+ pretty skipped_forks
                      +:+ " forked repositories[/dim]")
     else ret tt);;
    ret (fetch_repos_settings filtered_repos).

(** The repositories the loop of [get_target_repos] lets through. *)
Definition kept (include_archived include_forks : bool) (repo : Repository) : bool :=
  (include_archived || negb (repo_archived repo))
  && (include_forks || negb (repo_fork repo)).

(** ** The summary and the table (repos.py) *)

(** [a == b] on [Optional[str]] values. *)
Definition py_eq (a b : option string) : bool := bool_decide (a = b).

(** How an f-string shows an [Optional[str]]. *)
Definition fmt (o : option string) : string :=
  match o with
  | Some s => s
  | None => "None"
  end.

(** [o or "—"] *)
Definition or_dash (o : option string) : string :=
  match o with
  | Some (String c s) => String c s
  | _ => "—"
  end.

(** [sep.join(xs)] *)
Fixpoint join (sep : string) (xs : list string) : string :=
  match xs with
  | [] => EmptyString
  | [x] => x
  | x :: rest => x +:+ sep +:+ join sep rest
  end.

(** [sum(1 for r in repos if p(r))] *)
Definition count_if {A} (p : A → bool) (xs : list A) : nat := length (filter p xs).

Definition uses_pr_title_body (r : RepoSettings) : bool :=
  allow_squash_merge r
  && py_eq (squash_merge_commit_title r) (Some "PR_TITLE")
  && py_eq (squash_merge_commit_message r) (Some "PR_BODY").

Definition uses_pr_title (r : RepoSettings) : bool :=
  allow_merge_commit r
  && py_eq (merge_commit_title r) (Some "PR_TITLE")
  && py_eq (merge_commit_message r) (Some "PR_TITLE").

(** The condition of the [needs_attention] comprehension. *)
Definition needs_attention_cond (r : RepoSettings) : bool :=
  (allow_squash_merge r
   && (py_ne (squash_merge_commit_title r) (Some "PR_TITLE")
       || py_ne (squash_merge_commit_message r) (Some "PR_BODY")))
  || (allow_merge_commit r
      && (py_ne (merge_commit_title r) (Some "PR_TITLE")
          || py_ne (merge_commit_message r) (Some "PR_TITLE"))).

(** The [issues] list built for one repository needing attention. *)
Definition issues_of (repo : RepoSettings) : list string :=
  let issues : list string := [] in
  let issues :=
    if allow_squash_merge repo then
      let issues :=
        if py_ne (squash_merge_commit_title repo) (Some "PR_TITLE") then
          (issues ++ ["squash_title=" +:+ fmt (squash_merge_commit_title repo)])%list
        else issues in
      if py_ne (squash_merge_commit_message repo) (Some "PR_BODY") then
        (issues ++ ["squash_msg=" +:+ fmt (squash_merge_commit_message repo)])%list
      else issues
    else issues in
  if allow_merge_commit repo then
    let issues :=
      if py_ne (merge_commit_title repo) (Some "PR_TITLE") then
        (issues ++ ["merge_title=" +:+ fmt (merge_commit_title repo)])%list
      else issues in
    if py_ne (merge_commit_message repo) (Some "PR_TITLE") then
      (issues ++ ["merge_msg=" +:+ fmt (merge_commit_message repo)])%list
    else issues
  else issues.

(** The numbers and the list the summary view is printed from. *)
Record Summary := mkSummary {
  squash_enabled : nat;
  merge_enabled : nat;
  squash_pr_title_body : nat;
  squash_needs_update : Z;
  merge_pr_title : nat;
  merge_needs_update : Z;
  needs_attention : list RepoSettings
}.

Definition summarize (repos : list RepoSettings) : Summary :=
  let squash_enabled := count_if allow_squash_merge repos in
  let merge_enabled := count_if allow_merge_commit repos in
  let squash_pr_title_body := count_if uses_pr_title_body repos in
  let squash_needs_update := (Z.of_nat squash_enabled - Z.of_nat squash_pr_title_body)%Z in
  let merge_pr_title := count_if uses_pr_title repos in
  let merge_needs_update := (Z.of_nat merge_enabled - Z.of_nat merge_pr_title)%Z in
  let needs_attention := filter needs_attention_cond repos in
  mkSummary squash_enabled merge_enabled squash_pr_title_body squash_needs_update
            merge_pr_title merge_needs_update needs_attention.

(** A rich table: its title, its column headers and its rows. *)
Record Table := mkTable {
  table_title : string;
  table_columns : list string;
  table_rows : list (list string)
}.

Definition table_row (repo : RepoSettings) : list string :=
  let squash_title := or_dash (squash_merge_commit_title repo) in
  let squash_msg := or_dash (squash_merge_commit_message repo) in
  let merge_title := or_dash (merge_commit_title repo) in
  let merge_msg := or_dash (merge_commit_message repo) in
  [full_name repo;
   if allow_squash_merge repo then "✓" else "—";
   squash_title;
   squash_msg;
   if allow_merge_commit repo then "✓" else "—";
   merge_title;
   merge_msg].

Definition verbose_table (repos : list RepoSettings) : Table :=
  mkTable "Repository Merge Settings (Verbose)"
    ["Repository"; "Squash"; "Squash Title"; "Squash Msg"; "Merge"; "Merge Title"; "Merge Msg"]
    (table_row <$> repos).

Section Display.
Context {W : Type}.

(** How rich lays a table out in text. *)
Variable render_table : Table → string.

(** [display_repos_table] *)
Definition display_repos_table (repos : list RepoSettings) (verbose : bool) : M W unit :=
  if negb verbose then
    console_print (nl +:+ "[bold]Summary:[/bold]");;
    let s := summarize repos in
    console_print ("  Total repositories: " +:+ pretty (length repos));;
    console_print ("  Squash merge enabled: " +:+ pretty (squash_enabled s));;
    console_print ("    - Using PR_TITLE + PR_BODY: " +:+ pretty (squash_pr_title_body s));;
    (if bool_decide (0 < squash_needs_update s)%Z then
       console_print ("    - [yellow]Need update: " +:+ pretty (squash_needs_update s)
                      +:+ "[/yellow]")
     else ret tt);;
    console_print ("  Merge commit enabled: " +:+ pretty (merge_enabled s));;
    console_print ("    - Using PR_TITLE + PR_TITLE: " +:+ pretty (merge_pr_title s));;
    (if bool_decide (0 < merge_needs_update s)%Z then
       console_print ("    - [yellow]Need update: " +:+ pretty (merge_needs_update s)
                      +:+ "[/yellow]")
     else ret tt);;
    match needs_attention s with
    | [] => ret tt
    | _ =>
        console_print (nl +:+ "[yellow]Repositories needing updates ("
                       +:+ pretty (length (needs_attention s)) +:+ "):[/yellow]");;
        for_each (take 10 (needs_attention s))
          (λ repo, console_print ("  " +:+ full_name repo +:+ ": "
                                  +:+ join ", " (issues_of repo)));;
        if bool_decide (10 < length (needs_attention s)) then
          console_print ("  ... and " +:+ pretty (length (needs_attention s) - 10) +:+ " more")
        else ret tt
    end
  else
    console_print (render_table (verbose_table repos)).
End Display.

(** Both conventions at once: what the summary view measures against. *)
Definition canonical : Desired :=
  mkDesired (Some "PR_TITLE") (Some "PR_BODY") (Some "PR_TITLE") (Some "PR_TITLE").

(** ** The [list] and [fix-squash] commands (main.py) *)

Section MoreCommands.
Context {W : Type} `{Github W}.

Variable create_github_client : option string → M W unit.
Variable list_org_repos : string → bool → bool → M W (list RepoSettings).
Variable client_close : M W unit.
Variable render_table : Table → string.

(** The [try] block of [list_repos]. *)
Definition list_repos_body (org : string) (include_archived include_forks verbose : bool)
    (token : option string) : M W unit :=
  create_github_client token;;
  let* repos := list_org_repos org include_archived include_forks in
  display_repos_table render_table repos verbose;;
  client_close.

(** [list_repos] *)
Definition list_repos (org : string) (include_archived include_forks verbose : bool)
    (token : option string) : State W → outcome * State W :=
  λ st,
  match list_repos_body org include_archived include_forks verbose token st with
  | (Ok _, st') => (Returned, st')
  | (Raised e, st') => (Exit 1, (console_print (msg_error e) st').2)
  end.

(** The [try] block of [fix_squash_defaults]. *)
Definition fix_squash_body (org : string) (include_archived include_forks dry_run : bool)
    (token : option string) : M W unit :=
  create_github_client token;;
  console_print ("[bold]Organization:[/bold] " +:+ org);;
  console_print ("[bold]Action:[/bold] Set squash merge to PR_TITLE + PR_BODY" +:+ nl);;
  (if dry_run then
     console_print ("[yellow]Mode: DRY RUN (use --apply to make changes)[/yellow]" +:+ nl)
   else
     console_print ("[red]Mode: APPLY (making real changes)[/red]" +:+ nl));;
  let* repos := list_org_repos org include_archived include_forks in
  console_print (nl +:+ "[bold]Found " +:+ pretty (length repos) +:+ " repositories[/bold]" +:+ nl);;
  let* st := bulk_update_repos repos
               (mkDesired (Some "PR_TITLE") (Some "PR_BODY") None None) dry_run in
  let success := st.1 in
  let total := st.2 in
  console_print (nl +:+ "[bold]Summary:[/bold]");;
  console_print ("  Processed: " +:+ pretty total +:+ " repositories");;
  (if dry_run then
     console_print ("  Would update: " +:+ pretty success +:+ " repositories");;
     console_print (nl +:+ "[yellow]Run with --apply to make changes[/yellow]")
   else
     console_print ("  [green]Updated: " +:+ pretty success +:+ " repositories[/green]");;
     if bool_decide (success < total) then
       console_print ("  [red]Failed: " +:+ pretty (total - success) +:+ " repositories[/red]")
     else ret tt);;
  client_close.

(** [fix_squash_defaults] *)
Definition fix_squash_defaults (org : string) (include_archived include_forks dry_run : bool)
    (token : option string) : State W → outcome * State W :=
  λ st,
  match fix_squash_body org include_archived include_forks dry_run token st with
  | (Ok _, st') => (Returned, st')
  | (Raised e, st') => (Exit 1, (console_print (msg_error e) st').2)
  end.
End MoreCommands.

(** A step that sends no [repo.edit] request. *)
Definition sends_no_edit {W A} (m : M W A) : Prop :=
  ∀ st, edit_count (m st).2 = edit_count st.

(** A catalog made of organizations and users, each with the repositories
    it owns. *)
Record Directory := mkDirectory {
  dir_orgs : gmap string (list Repository);
  dir_users : gmap string (list Repository);
  dir_store : Store
}.

#[export] Instance directory_github : Github Directory :=
  {| gh_get_repo := λ n w,
       match store_get_repo n (dir_store w) with
       | (r, s) => (r, mkDirectory (dir_orgs w) (dir_users w) s)
       end;
     gh_edit := λ repo changes w,
       match store_edit repo changes (dir_store w) with
       | (r, s) => (r, mkDirectory (dir_orgs w) (dir_users w) s)
       end |}.

#[export] Instance directory_catalog : GithubCatalog Directory :=
  {| gh_get_organization := λ target w,
       match dir_orgs w !! target with
       | Some _ => (Ok (Organization target), w)
       | None => (Raised (Exception "404 Not Found"), w)
       end;
     gh_get_user := λ target w,
       match dir_users w !! target with
       | Some _ => (Ok (NamedUser target), w)
       | None => (Raised (Exception "404 Not Found"), w)
       end;
     gh_get_repos := λ owner w,
       match owner with
       | Organization login => (Ok (default [] (dir_orgs w !! login)), w)
       | NamedUser login => (Ok (default [] (dir_users w !! login)), w)
       end |}.

(** More repositories for the examples: an archived one, a fork, and an
    archived fork. *)
Definition repo_old : Repository :=
  mkRepository "old" "acme/old" true false true (Some "COMMIT_OR_PR_TITLE")
    (Some "COMMIT_MESSAGES") true (Some "MERGE_MESSAGE") (Some "PR_TITLE") true.

Definition repo_fork_x : Repository :=
  mkRepository "x" "acme/x" false true true (Some "PR_TITLE") (Some "PR_BODY")
    true (Some "PR_TITLE") (Some "PR_TITLE") true.

Definition repo_old_fork : Repository :=
  mkRepository "y" "acme/y" true true false None None false None None false.

Definition acme : Directory :=
  mkDirectory {[ "acme" := [repo_a; repo_old; repo_b; repo_fork_x; repo_old_fork; repo_c] ]}
              {[ "alice" := [repo_b] ]}
              (store_of [repo_a; repo_old; repo_b; repo_fork_x; repo_old_fork; repo_c] ∅).


(** ** Python values *)

Lemma truthy_Some (o : option string) :
  truthy o = true ↔ ∃ v, o = Some v ∧ v ≠ EmptyString.
Proof.
  split.
  - destruct o as [[|c s]|]; simpl; try discriminate.
    intros _. by exists (String c s).
  - intros (v & -> & Hv). by destruct v.
Qed.

Lemma truthy_empty : truthy (Some EmptyString) = false.
Proof. reflexivity. Qed.

Lemma py_ne_false (a b : option string) : py_ne a b = false ↔ a = b.
Proof.
  unfold py_ne. rewrite bool_decide_eq_false. split; [|by intros ->; auto].
  intros Hn. by destruct (decide (a = b)).
Qed.

Lemma py_ne_true (a b : option string) : py_ne a b = true ↔ a ≠ b.
Proof. unfold py_ne. by rewrite bool_decide_eq_true. Qed.

(** ** The change dictionary *)

Lemma consider_lookup_ne key key' desired enabled current (changes : gmap string string) :
  key ≠ key' →
  consider key desired enabled current changes !! key' = changes !! key'.
Proof.
  intros Hne. unfold consider.
  destruct (truthy desired && enabled); [|done].
  destruct (py_ne current desired); [|done].
  destruct desired; [|done]. by rewrite lookup_insert_ne.
Qed.

Lemma consider_lookup_eq key desired enabled current (changes : gmap string string) v :
  changes !! key = None →
  consider key desired enabled current changes !! key = Some v ↔
  due desired enabled current v.
Proof.
  intros Hnone. unfold consider, due.
  destruct (truthy desired) eqn:Ht; simpl.
  - apply truthy_Some in Ht as (w & -> & Hw).
    destruct enabled; simpl.
    + destruct (py_ne current (Some w)) eqn:Hne.
      * apply py_ne_true in Hne. rewrite lookup_insert_eq.
        split; [intros [= <-]; done | intros ([= <-] & _); done].
      * apply py_ne_false in Hne. rewrite Hnone.
        split; [done | intros ([= <-] & _ & _ & Hc); done].
    + rewrite Hnone. split; [done | intros (_ & _ & ? & _); done].
  - rewrite Hnone. split; [done|].
    intros (-> & Hv & _). destruct v; [done | discriminate].
Qed.

Lemma build_changes_squash_title settings d v :
  build_changes settings d !! K_squash_title = Some v ↔
  due (squash_title d) (allow_squash_merge settings) (squash_merge_commit_title settings) v.
Proof.
  unfold build_changes. rewrite !consider_lookup_ne by done.
  by apply consider_lookup_eq.
Qed.

Lemma build_changes_squash_message settings d v :
  build_changes settings d !! K_squash_message = Some v ↔
  due (squash_message d) (allow_squash_merge settings) (squash_merge_commit_message settings) v.
Proof.
  unfold build_changes. rewrite !consider_lookup_ne by done.
  apply consider_lookup_eq. by rewrite consider_lookup_ne.
Qed.

Lemma build_changes_merge_title settings d v :
  build_changes settings d !! K_merge_title = Some v ↔
  due (merge_title d) (allow_merge_commit settings) (merge_commit_title settings) v.
Proof.
  unfold build_changes. rewrite !consider_lookup_ne by done.
  apply consider_lookup_eq. by rewrite !consider_lookup_ne.
Qed.

Lemma build_changes_merge_message settings d v :
  build_changes settings d !! K_merge_message = Some v ↔
  due (merge_message d) (allow_merge_commit settings) (merge_commit_message settings) v.
Proof.
  unfold build_changes.
  apply consider_lookup_eq. by rewrite !consider_lookup_ne.
Qed.

Lemma build_changes_other settings d key :
  key ∉ insertion_order → build_changes settings d !! key = None.
Proof.
  intros Hk. unfold build_changes.
  rewrite !consider_lookup_ne; [done|..];
    intros <-; apply Hk; unfold insertion_order; set_solver.
Qed.

Lemma build_changes_scenario_a n fn ar fk me mt mm rb :
  build_changes
    (mkRepoSettings n fn ar fk true (Some "COMMIT_OR_PR_TITLE") (Some "PR_BODY") me mt mm rb)
    fix_squash
  = {[ K_squash_title := "PR_TITLE" ]}.
Proof.
  apply map_eq. intros key.
  destruct (decide (key ∈ insertion_order)) as [Hin|Hout].
  - unfold insertion_order in Hin.
    apply elem_of_cons in Hin as [->|Hin]; [by vm_compute|].
    apply elem_of_cons in Hin as [->|Hin]; [by vm_compute|].
    apply elem_of_cons in Hin as [->|Hin]; [done|].
    apply elem_of_cons in Hin as [->|Hin]; [done|].
    by apply elem_of_nil in Hin.
  - rewrite build_changes_other by done.
    symmetry. apply lookup_singleton_ne. intros <-. apply Hout.
    unfold insertion_order. set_solver.
Qed.

(** ** Running the engine *)

Section Engine.
Context {W : Type} `{Github W}.

Lemma for_each_print {A} (xs : list A) (f : A → string) (st : State W) :
  for_each xs (λ x, console_print (f x)) st
  = (Ok tt, mkState (world st) (console st ++ (f <$> xs)) (calls st)).
Proof.
  revert st. induction xs as [|x xs IH]; intros st; simpl.
  - unfold ret. rewrite app_nil_r. by destruct st.
  - unfold bind, console_print at 1. simpl. rewrite IH. simpl.
    by rewrite <- app_assoc.
Qed.

(** Every run of [update_repo_settings], spelled out: the result, the
    remote state, the console and the requests sent. *)
Lemma update_repo_settings_run (n : string) (d : Desired) (dry_run : bool) (st : State W) :
  update_repo_settings n d dry_run st =
  match gh_get_repo n (world st) with
  | (Raised e, w) =>
      (Raised e, mkState w (console st) (calls st ++ [CallGetRepo n]))
  | (Ok repo, w) =>
      let changes := build_changes (from_repo repo) d in
      if bool_decide (changes = ∅) then
        (Ok true, mkState w (console st ++ [msg_no_changes n])
                          (calls st ++ [CallGetRepo n]))
      else if dry_run then
        (Ok true,
         mkState w
           (console st ++ msg_would_update n
              :: ((λ kv, msg_change kv.1 kv.2) <$> items changes))
           (calls st ++ [CallGetRepo n]))
      else
        match gh_edit repo changes w with
        | (Ok _, w') =>
            (Ok true, mkState w' (console st ++ [msg_updated n])
                              (calls st ++ [CallGetRepo n; CallEdit repo changes]))
        | (Raised e, w') =>
            (Ok false, mkState w' (console st ++ [failure_line n e])
                               (calls st ++ [CallGetRepo n; CallEdit repo changes]))
        end
  end.
Proof.
  unfold update_repo_settings, bind at 1, get_repo.
  destruct (gh_get_repo n (world st)) as [[repo|e] w]; [|done].
  simpl. case_bool_decide as Hch.
  - done.
  - destruct dry_run.
    + unfold bind, console_print at 1. simpl.
      rewrite for_each_print. simpl. unfold ret.
      by rewrite <- app_assoc.
    + unfold try_except, bind, edit. simpl.
      destruct (gh_edit repo (build_changes (from_repo repo) d) w) as [[[]|e] w']; simpl.
      * unfold ret. by rewrite <- app_assoc.
      * unfold failure_line, ret. by rewrite <- app_assoc.
Qed.
End Engine.

(** ** The batch loop *)

Section Batch.
Context {W : Type} `{Github W}.

Lemma needs_update_true (rs : RepoSettings) (d : Desired) :
  needs_update rs d = true ↔
  ((truthy (squash_title d) = true ∨ truthy (squash_message d) = true)
   ∧ allow_squash_merge rs = true)
  ∨ ((truthy (merge_title d) = true ∨ truthy (merge_message d) = true)
     ∧ allow_merge_commit rs = true).
Proof.
  unfold needs_update.
  destruct (truthy (squash_title d)), (truthy (squash_message d)),
    (truthy (merge_title d)), (truthy (merge_message d)),
    (allow_squash_merge rs), (allow_merge_commit rs); simpl; intuition discriminate.
Qed.

Lemma bulk_loop_skip rs rest d dry_run sc tc (st : State W) :
  needs_update rs d = false →
  bulk_loop (rs :: rest) d dry_run sc tc st
  = bulk_loop rest d dry_run sc tc
      (mkState (world st) (console st ++ [msg_not_applicable (full_name rs)]) (calls st)).
Proof. intros Hn. simpl. rewrite Hn. simpl. by unfold bind, console_print. Qed.

Lemma bulk_loop_attempt rs rest d dry_run sc tc (st : State W) :
  needs_update rs d = true →
  bulk_loop (rs :: rest) d dry_run sc tc st
  = match update_repo_settings (full_name rs) d dry_run st with
    | (Ok ok, st') =>
        bulk_loop rest d dry_run (if ok then sc + 1 else sc) (tc + 1) st'
    | (Raised e, st') => (Raised e, st')
    end.
Proof. intros Hn. simpl. rewrite Hn. simpl. by unfold bind at 1. Qed.


Lemma bulk_loop_counters repos d dry_run sc tc (st st' : State W) s t :
  bulk_loop repos d dry_run sc tc st = (Ok (s, t), st') →
  ∃ a b, (s = sc + a ∧ t = tc + b ∧ a ≤ b ∧ b ≤ length repos)%nat.
Proof.
  revert sc tc st. induction repos as [|rs rest IH]; intros sc tc st.
  - simpl. unfold ret. intros [= <- <- _]. exists 0, 0. lia.
  - destruct (needs_update rs d) eqn:Hn.
    + rewrite bulk_loop_attempt by done.
      destruct (update_repo_settings _ _ _ _) as [[ok|e] st1]; [|done].
      intros Hrest. apply IH in Hrest as (a & b & -> & -> & Hab & Hb).
      destruct ok.
      * exists (S a), (S b). simpl. lia.
      * exists a, (S b). simpl. lia.
    + rewrite bulk_loop_skip by done.
      intros Hrest. apply IH in Hrest as (a & b & -> & -> & Hab & Hb).
      exists a, b. simpl. lia.
Qed.

End Batch.

(** ** What an edit may carry *)

Lemma due_enabled desired enabled current v : due desired enabled current v → enabled = true.
Proof. by intros (_ & _ & ? & _). Qed.

Lemma build_changes_disabled_squash settings d :
  allow_squash_merge settings = false →
  build_changes settings d !! K_squash_title = None
  ∧ build_changes settings d !! K_squash_message = None.
Proof.
  intros Hoff. split; apply eq_None_not_Some; intros [v Hv].
  - apply build_changes_squash_title, due_enabled in Hv. congruence.
  - apply build_changes_squash_message, due_enabled in Hv. congruence.
Qed.

Lemma build_changes_disabled_merge settings d :
  allow_merge_commit settings = false →
  build_changes settings d !! K_merge_title = None
  ∧ build_changes settings d !! K_merge_message = None.
Proof.
  intros Hoff. split; apply eq_None_not_Some; intros [v Hv].
  - apply build_changes_merge_title, due_enabled in Hv. congruence.
  - apply build_changes_merge_message, due_enabled in Hv. congruence.
Qed.

Lemma build_changes_dom settings d :
  dom (build_changes settings d) ⊆ list_to_set insertion_order.
Proof.
  intros key Hkey. apply elem_of_dom in Hkey as [v Hv].
  apply elem_of_list_to_set.
  destruct (decide (key ∈ insertion_order)) as [|Hout]; [done|].
  rewrite build_changes_other in Hv by done. discriminate.
Qed.

Lemma build_changes_respects repo d :
  respects_methods (CallEdit repo (build_changes (from_repo repo) d)).
Proof.
  split; [apply build_changes_dom|]. split; intros Hoff.
  - by apply build_changes_disabled_squash.
  - by apply build_changes_disabled_merge.
Qed.

(** The reading of a repository whose changes were applied asks for no
    further change. *)
Lemma patched_not_due (changes : gmap string string) key desired enabled current :
  (∀ v, changes !! key = Some v ↔ due desired enabled current v) →
  ∀ v, ¬ due desired enabled (patched changes key current) v.
Proof.
  intros Hspec v (Hd & Hv & He & Hc). unfold patched in Hc.
  destruct (changes !! key) as [v'|] eqn:Hk.
  - destruct (proj1 (Hspec v') eq_refl) as (Hd' & _). congruence.
  - assert (None = Some v) as Hk'; [by apply Hspec|]. discriminate.
Qed.

Lemma build_changes_patch repo d :
  build_changes (from_repo (patch (build_changes (from_repo repo) d) repo)) d = ∅.
Proof.
  apply map_eq. intros key. rewrite lookup_empty.
  apply eq_None_not_Some. intros [v Hv].
  destruct (decide (key ∈ insertion_order)) as [Hin|Hout];
    [|rewrite build_changes_other in Hv by done; discriminate].
  unfold insertion_order in Hin.
  repeat (apply elem_of_cons in Hin as [->|Hin]); [..|by apply elem_of_nil in Hin].
  - apply build_changes_squash_title in Hv. revert Hv. simpl.
    apply patched_not_due. intros. apply build_changes_squash_title.
  - apply build_changes_squash_message in Hv. revert Hv. simpl.
    apply patched_not_due. intros. apply build_changes_squash_message.
  - apply build_changes_merge_title in Hv. revert Hv. simpl.
    apply patched_not_due. intros. apply build_changes_merge_title.
  - apply build_changes_merge_message in Hv. revert Hv. simpl.
    apply patched_not_due. intros. apply build_changes_merge_message.
Qed.

(** ** Requests sent *)

Section Requests.
Context {W : Type} `{Github W}.

Lemma update_repo_settings_calls n d dry_run (st : State W) :
  ∃ new : list ApiCall, calls (update_repo_settings n d dry_run st).2 = (calls st ++ new)%list
         ∧ Forall respects_methods new
         ∧ (length (filter is_edit new) ≤ 1)%nat
         ∧ (dry_run = true → filter is_edit new = []).
Proof.
  rewrite update_repo_settings_run.
  destruct (gh_get_repo n (world st)) as [[repo|e] w]; simpl.
  - case_bool_decide.
    { exists [CallGetRepo n]. repeat split; simpl; auto. repeat constructor. }
    destruct dry_run.
    { exists [CallGetRepo n]. repeat split; simpl; auto. repeat constructor. }
    exists [CallGetRepo n; CallEdit repo (build_changes (from_repo repo) d)].
    split; [by destruct (gh_edit _ _ _) as [[[]|?] ?]|].
    split; [|split; [simpl; lia | done]].
    constructor; [done|]. constructor; [apply build_changes_respects | constructor].
  - exists [CallGetRepo n]. repeat split; simpl; auto. repeat constructor.
Qed.

Lemma bulk_loop_calls repos d dry_run sc tc (st : State W) :
  ∃ new : list ApiCall, calls (bulk_loop repos d dry_run sc tc st).2 = (calls st ++ new)%list
         ∧ Forall respects_methods new
         ∧ (dry_run = true → filter is_edit new = []).
Proof.
  revert sc tc st. induction repos as [|rs rest IH]; intros sc tc st.
  - exists []. simpl. rewrite app_nil_r. auto.
  - destruct (needs_update rs d) eqn:Hn.
    + rewrite bulk_loop_attempt by done.
      destruct (update_repo_settings_calls (full_name rs) d dry_run st)
        as (new1 & Hc1 & Hr1 & _ & Hd1).
      destruct (update_repo_settings _ _ _ _) as [[ok|e] st1]; simpl in Hc1.
      * destruct (IH (if ok then sc + 1 else sc) (tc + 1) st1)
          as (new2 & Hc2 & Hr2 & Hd2).
        exists (new1 ++ new2)%list. rewrite Hc2, Hc1, <- app_assoc.
        split; [done|]. split; [by apply Forall_app|].
        intros Hdry. rewrite filter_app, Hd1, Hd2 by done. done.
      * exists new1. auto.
    + rewrite bulk_loop_skip by done.
      destruct (IH sc tc (mkState (world st)
                  (console st ++ [msg_not_applicable (full_name rs)]) (calls st)))
        as (new & Hc & Hr & Hd).
      exists new. auto.
Qed.
End Requests.

(** ** Empty strings *)

Lemma truthy_absent_if_empty o : truthy (absent_if_empty o) = truthy o.
Proof. by destruct o as [[|]|]. Qed.

Lemma consider_absent_if_empty key desired enabled current changes :
  consider key (absent_if_empty desired) enabled current changes
  = consider key desired enabled current changes.
Proof. by destruct desired as [[|]|]. Qed.

Lemma build_changes_without_empty settings d :
  build_changes settings (without_empty d) = build_changes settings d.
Proof. unfold build_changes. simpl. by rewrite !consider_absent_if_empty. Qed.

Lemma needs_update_without_empty rs d :
  needs_update rs (without_empty d) = needs_update rs d.
Proof. unfold needs_update. simpl. by rewrite !truthy_absent_if_empty. Qed.

Lemma update_repo_settings_without_empty {W} `{Github W} n d dry_run (st : State W) :
  update_repo_settings n (without_empty d) dry_run st = update_repo_settings n d dry_run st.
Proof.
  rewrite !update_repo_settings_run.
  destruct (gh_get_repo n (world st)) as [[repo|e] w]; [|done].
  by rewrite build_changes_without_empty.
Qed.

Lemma bulk_loop_without_empty {W} `{Github W} repos d dry_run sc tc (st : State W) :
  bulk_loop repos (without_empty d) dry_run sc tc st = bulk_loop repos d dry_run sc tc st.
Proof.
  revert sc tc st. induction repos as [|rs rest IH]; intros sc tc st; [done|].
  destruct (needs_update rs d) eqn:Hn.
  - rewrite !bulk_loop_attempt by (by rewrite ?needs_update_without_empty).
    rewrite update_repo_settings_without_empty.
    destruct (update_repo_settings _ _ _ _) as [[ok|e] st1]; [apply IH | done].
  - rewrite !bulk_loop_skip by (by rewrite ?needs_update_without_empty).
    apply IH.
Qed.

(** * The claims *)

(** C8. [needs_squash_update]: on a repository with squash merging
    disabled the answer is [False] whatever title and message are asked
    for; with squash merging enabled the answer is [False] exactly when the
    current title is the asked title and the current message is the asked
    message. *)
Theorem C8_needs_squash_update (self : RepoSettings) (t m : string) :
  (allow_squash_merge self = false → needs_squash_update self t m = false)
  ∧ (allow_squash_merge self = true →
     (needs_squash_update self t m = false ↔
      squash_merge_commit_title self = Some t
      ∧ squash_merge_commit_message self = Some m)).
Proof.
  unfold needs_squash_update. split; intros ->; simpl; [done|].
  rewrite orb_false_iff, !py_ne_false. done.
Qed.

(** acme/c has squash merging disabled; acme/b has it enabled and already
    uses PR_TITLE and PR_BODY. *)
Lemma C8_on_acme_c_and_acme_b :
  (allow_squash_merge (from_repo repo_c) = false
   ∧ needs_squash_update (from_repo repo_c) "PR_TITLE" "PR_BODY" = false)
  ∧ (allow_squash_merge (from_repo repo_b) = true
     ∧ squash_merge_commit_title (from_repo repo_b) = Some "PR_TITLE"
     ∧ squash_merge_commit_message (from_repo repo_b) = Some "PR_BODY"
     ∧ needs_squash_update (from_repo repo_b) "PR_TITLE" "PR_BODY" = false).
Proof.
  split.
  - split; [reflexivity|].
    apply (proj1 (C8_needs_squash_update (from_repo repo_c) "PR_TITLE" "PR_BODY")).
    reflexivity.
  - split; [reflexivity|]. split; [reflexivity|]. split; [reflexivity|].
    apply (proj2 (C8_needs_squash_update (from_repo repo_b) "PR_TITLE" "PR_BODY")
             eq_refl).
    split; reflexivity.
Defined.

(** C1. The change dictionary of [update_repo_settings] holds an entry for
    a format field exactly when the desired value is present, the merge
    method governing the field is enabled on the settings just fetched,
    and the current value differs; the entry then carries the desired
    value, and no other key is ever set.  In scenario A (squash enabled,
    title COMMIT_OR_PR_TITLE, message PR_BODY, desired PR_TITLE and
    PR_BODY) the dictionary is the single entry
    squash_merge_commit_title = PR_TITLE.  The dictionary is built from
    the settings just fetched; it is what an apply-mode run sends to
    [repo.edit] and what a dry run prints. *)
Theorem C1_changes_exactly_when_due :
  (∀ settings d v,
     (build_changes settings d !! K_squash_title = Some v ↔
      due (squash_title d) (allow_squash_merge settings)
          (squash_merge_commit_title settings) v)
     ∧ (build_changes settings d !! K_squash_message = Some v ↔
        due (squash_message d) (allow_squash_merge settings)
            (squash_merge_commit_message settings) v)
     ∧ (build_changes settings d !! K_merge_title = Some v ↔
        due (merge_title d) (allow_merge_commit settings)
            (merge_commit_title settings) v)
     ∧ (build_changes settings d !! K_merge_message = Some v ↔
        due (merge_message d) (allow_merge_commit settings)
            (merge_commit_message settings) v))
  ∧ (∀ settings d key,
       key ∉ insertion_order → build_changes settings d !! key = None)
  ∧ (∀ n fn ar fk me mt mm rb,
       build_changes
         (mkRepoSettings n fn ar fk true (Some "COMMIT_OR_PR_TITLE") (Some "PR_BODY")
                         me mt mm rb)
         (mkDesired (Some "PR_TITLE") (Some "PR_BODY") None None)
       = {[ K_squash_title := "PR_TITLE" ]})
  ∧ (∀ W (G : Github W) n d (st : State W) repo w,
       gh_get_repo n (world st) = (Ok repo, w) →
       build_changes (from_repo repo) d ≠ ∅ →
       calls (update_repo_settings n d false st).2
       = (calls st ++ [CallGetRepo n; CallEdit repo (build_changes (from_repo repo) d)])%list
       ∧ console (update_repo_settings n d true st).2
         = (console st ++ msg_would_update n
              :: ((λ kv, msg_change kv.1 kv.2) <$> items (build_changes (from_repo repo) d)))%list)
  ∧ calls (update_repo_settings "acme/a" fix_squash false
             (init (store_of [repo_a] ∅))).2
    = [CallGetRepo "acme/a"; CallEdit repo_a {[ K_squash_title := "PR_TITLE" ]}]
  ∧ console (update_repo_settings "acme/a" fix_squash true
               (init (store_of [repo_a] ∅))).2
    = ["[yellow]acme/a: Would update:[/yellow]"; "  squash_merge_commit_title: PR_TITLE"].
Proof.
  split; [|split; [|split; [|split; [|split]]]].
  - intros settings d v. split; [|split; [|split]].
    + apply build_changes_squash_title.
    + apply build_changes_squash_message.
    + apply build_changes_merge_title.
    + apply build_changes_merge_message.
  - apply build_changes_other.
  - apply build_changes_scenario_a.
  - intros W G n d st repo w Hget Hch.
    rewrite !update_repo_settings_run, Hget. simpl.
    rewrite bool_decide_eq_false_2 by done.
    split; [|done]. by destruct (gh_edit _ _ _) as [[[]|?] ?].
  - by vm_compute.
  - by vm_compute.
Qed.

(** Scenario A on the in-memory remote, through the general statement. *)
Lemma C1_scenario_a_run :
  gh_get_repo "acme/a" (world (init (store_of [repo_a] ∅)))
  = (Ok repo_a, store_of [repo_a] ∅)
  ∧ build_changes (from_repo repo_a) fix_squash ≠ ∅
  ∧ calls (update_repo_settings "acme/a" fix_squash false
             (init (store_of [repo_a] ∅))).2
    = ([] ++ [CallGetRepo "acme/a";
              CallEdit repo_a (build_changes (from_repo repo_a) fix_squash)])%list.
Proof.
  assert (Hget : gh_get_repo "acme/a" (world (init (store_of [repo_a] ∅)))
                 = (Ok repo_a, store_of [repo_a] ∅)) by (by vm_compute).
  assert (Hch : build_changes (from_repo repo_a) fix_squash ≠ ∅) by (by vm_compute).
  split; [exact Hget|]. split; [exact Hch|].
  exact (proj1 (proj1 (proj2 (proj2 (proj2 C1_changes_exactly_when_due)))
                  Store store_github "acme/a" fix_squash
                  (init (store_of [repo_a] ∅)) repo_a (store_of [repo_a] ∅) Hget Hch)).
Defined.

(** C3. Reconciliation never puts a squash-merge format field in the
    change dictionary of a repository whose [allow_squash_merge] is false,
    nor a merge-commit format field when [allow_merge_commit] is false, and
    the dictionary never has a key besides the four format fields (so not
    [allow_rebase_merge] either).  Every [repo.edit] request sent by
    [update_repo_settings] or by [bulk_update_repos], in either mode, keeps
    to this. *)
Theorem C3_disabled_methods_untouched :
  (∀ settings d,
     (allow_squash_merge settings = false →
      build_changes settings d !! K_squash_title = None
      ∧ build_changes settings d !! K_squash_message = None)
     ∧ (allow_merge_commit settings = false →
        build_changes settings d !! K_merge_title = None
        ∧ build_changes settings d !! K_merge_message = None)
     ∧ dom (build_changes settings d) ⊆ list_to_set insertion_order
     ∧ build_changes settings d !! "allow_rebase_merge" = None)
  ∧ (∀ W (G : Github W) n d dry_run (st : State W),
       ∃ new : list ApiCall,
         calls (update_repo_settings n d dry_run st).2 = (calls st ++ new)%list
         ∧ Forall respects_methods new)
  ∧ (∀ W (G : Github W) repos d dry_run (st : State W),
       ∃ new : list ApiCall,
         calls (bulk_update_repos repos d dry_run st).2 = (calls st ++ new)%list
         ∧ Forall respects_methods new).
Proof.
  split; [|split].
  - intros settings d. split; [apply build_changes_disabled_squash|].
    split; [apply build_changes_disabled_merge|].
    split; [apply build_changes_dom|].
    apply build_changes_other. unfold insertion_order. intros Hin.
    repeat (apply elem_of_cons in Hin as [Heq|Hin]; [discriminate|]).
    by apply elem_of_nil in Hin.
  - intros W G n d dry_run st.
    destruct (update_repo_settings_calls n d dry_run st) as (new & ? & ? & _).
    by exists new.
  - intros W G repos d dry_run st.
    destruct (bulk_loop_calls repos d dry_run 0 0 st) as (new & ? & ? & _).
    by exists new.
Qed.

(** acme/c has squash merging disabled: the squash values asked for never
    reach its change dictionary. *)
Lemma C3_on_acme_c :
  allow_squash_merge (from_repo repo_c) = false
  ∧ build_changes (from_repo repo_c) fix_squash !! K_squash_title = None
  ∧ build_changes (from_repo repo_c) fix_squash !! K_squash_message = None.
Proof.
  split; [reflexivity|].
  apply (proj1 (proj1 C3_disabled_methods_untouched (from_repo repo_c) fix_squash)).
  reflexivity.
Defined.

(** C4. In dry-run mode [update_repo_settings] never calls [repo.edit].
    In apply mode it calls it at most once: not at all when the change
    dictionary is empty (or the repository could not be fetched), exactly
    once otherwise. *)
Theorem C4_edit_called_at_most_once W (G : Github W) n d (st : State W) :
  edit_count (update_repo_settings n d true st).2 = edit_count st
  ∧ (edit_count (update_repo_settings n d false st).2 ≤ edit_count st + 1)%nat
  ∧ (∀ repo w, gh_get_repo n (world st) = (Ok repo, w) →
       edit_count (update_repo_settings n d false st).2
       = (edit_count st
          + if bool_decide (build_changes (from_repo repo) d = ∅) then 0 else 1)%nat)
  ∧ (∀ e w, gh_get_repo n (world st) = (Raised e, w) →
       edit_count (update_repo_settings n d false st).2 = edit_count st).
Proof.
  unfold edit_count. split; [|split; [|split]].
  - destruct (update_repo_settings_calls n d true st) as (new & -> & _ & _ & Hdry).
    rewrite filter_app, Hdry, app_nil_r by done. done.
  - destruct (update_repo_settings_calls n d false st) as (new & -> & _ & Hle & _).
    rewrite filter_app, length_app. lia.
  - intros repo w Hget. rewrite update_repo_settings_run, Hget. simpl.
    case_bool_decide; simpl.
    + rewrite filter_app, length_app. simpl. lia.
    + destruct (gh_edit _ _ _) as [[[]|?] ?]; simpl;
        rewrite filter_app, length_app; simpl; lia.
  - intros e w Hget. rewrite update_repo_settings_run, Hget. simpl.
    rewrite filter_app, length_app. simpl. lia.
Qed.

(** acme/a needs its squash title changed: one edit in apply mode. *)
Lemma C4_on_acme_a :
  gh_get_repo "acme/a" (world (init (store_of [repo_a] ∅)))
  = (Ok repo_a, store_of [repo_a] ∅)
  ∧ edit_count (update_repo_settings "acme/a" fix_squash false
                  (init (store_of [repo_a] ∅))).2
    = (edit_count (init (store_of [repo_a] ∅))
       + if bool_decide (build_changes (from_repo repo_a) fix_squash = ∅)
         then 0 else 1)%nat.
Proof.
  assert (Hget : gh_get_repo "acme/a" (world (init (store_of [repo_a] ∅)))
                 = (Ok repo_a, store_of [repo_a] ∅)) by (by vm_compute).
  split; [exact Hget|].
  exact (proj1 (proj2 (proj2
           (C4_edit_called_at_most_once Store store_github "acme/a" fix_squash
              (init (store_of [repo_a] ∅)))))
           repo_a (store_of [repo_a] ∅) Hget).
Defined.




(** C5. A snapshot is skipped exactly when no present desired field has
    its merge method enabled on the snapshot; a skipped snapshot leaves
    both counters and the remote alone and sends no request.  Any other
    snapshot adds one to the attempted counter, and one to the succeeded
    counter exactly when [update_repo_settings] returns [True], which it
    does when nothing needs changing and when the run is a dry run.  In
    scenario D (acme/a needs a change, acme/b matches, acme/c has both
    methods disabled; the remote accepts the edit) the batch returns
    succeeded = 2 and attempted = 2 in both modes. *)
Theorem C5_skipped_attempted_succeeded W (G : Github W) :
  (∀ rs d,
     needs_update rs d = false ↔
     ¬ (((truthy (squash_title d) = true ∨ truthy (squash_message d) = true)
         ∧ allow_squash_merge rs = true)
        ∨ ((truthy (merge_title d) = true ∨ truthy (merge_message d) = true)
           ∧ allow_merge_commit rs = true)))
  ∧ (∀ rs rest d dry_run sc tc (st : State W),
       needs_update rs d = false →
       bulk_loop (rs :: rest) d dry_run sc tc st
       = bulk_loop rest d dry_run sc tc
           (mkState (world st) (console st ++ [msg_not_applicable (full_name rs)])
                    (calls st)))
  ∧ (∀ rs rest d dry_run sc tc (st st' : State W) ok,
       needs_update rs d = true →
       update_repo_settings (full_name rs) d dry_run st = (Ok ok, st') →
       bulk_loop (rs :: rest) d dry_run sc tc st
       = bulk_loop rest d dry_run (if ok then sc + 1 else sc) (tc + 1) st')
  ∧ (∀ n d dry_run (st : State W) repo w,
       gh_get_repo n (world st) = (Ok repo, w) →
       build_changes (from_repo repo) d = ∅ ∨ dry_run = true →
       (update_repo_settings n d dry_run st).1 = Ok true)
  ∧ (∀ dry_run,
       (bulk_update_repos (from_repo <$> [repo_a; repo_b; repo_c]) fix_squash dry_run
          (init (store_of [repo_a; repo_b; repo_c] ∅))).1
       = Ok (2, 2)).
Proof.
  split; [|split; [|split; [|split]]].
  - intros rs d. rewrite <- needs_update_true. by destruct (needs_update rs d).
  - intros. by apply bulk_loop_skip.
  - intros rs rest d dry_run sc tc st st' ok Hn Hrun.
    by rewrite bulk_loop_attempt, Hrun.
  - intros n d dry_run st repo w Hget Hcase.
    rewrite update_repo_settings_run, Hget. simpl.
    case_bool_decide; [done|]. by destruct Hcase as [?| ->].
  - by intros [|]; vm_compute.
Qed.

(** acme/c, with both methods disabled, is skipped at the head of a batch. *)
Lemma C5_acme_c_is_skipped :
  needs_update (from_repo repo_c) fix_squash = false
  ∧ bulk_loop (from_repo <$> [repo_c; repo_a]) fix_squash false 0 0
      (init (store_of [repo_a; repo_c] ∅))
    = bulk_loop (from_repo <$> [repo_a]) fix_squash false 0 0
        (mkState (store_of [repo_a; repo_c] ∅)
           ([] ++ [msg_not_applicable "acme/c"]) []).
Proof.
  split; [reflexivity|].
  exact (proj1 (proj2 (C5_skipped_attempted_succeeded Store store_github))
           (from_repo repo_c) (from_repo <$> [repo_a]) fix_squash false 0 0
           (init (store_of [repo_a; repo_c] ∅)) eq_refl).
Defined.

(** C6. The counters returned by [bulk_update_repos] satisfy
    0 <= succeeded <= attempted <= number of snapshots. *)
Theorem C6_counters_bounded W (G : Github W) repos d dry_run (st : State W) s t :
  (bulk_update_repos repos d dry_run st).1 = Ok (s, t) →
  (0 ≤ s ∧ s ≤ t ∧ t ≤ length repos)%nat.
Proof.
  unfold bulk_update_repos.
  destruct (bulk_loop repos d dry_run 0 0 st) as [r st'] eqn:Hrun. simpl.
  intros ->. apply bulk_loop_counters in Hrun as (a & b & -> & -> & ? & ?). lia.
Qed.

Lemma C6_counters_bounded_scenario :
  (bulk_update_repos (from_repo <$> [repo_a; repo_b; repo_c]) fix_squash false
     (init (store_of [repo_a; repo_b; repo_c] ∅))).1 = Ok (2, 2)
  ∧ (0 ≤ 2 ∧ 2 ≤ 2 ∧ 2 ≤ length (from_repo <$> [repo_a; repo_b; repo_c]))%nat.
Proof.
  assert (Hrun : (bulk_update_repos (from_repo <$> [repo_a; repo_b; repo_c]) fix_squash
                    false (init (store_of [repo_a; repo_b; repo_c] ∅))).1 = Ok (2, 2)).
  { by vm_compute. }
  split; [exact Hrun|].
  exact (C6_counters_bounded Store store_github _ _ _ _ 2 2 Hrun).
Defined.

(** C7. Idempotence.  If an apply-mode run of [update_repo_settings]
    returns [True] and nothing else touches the repository, a second
    apply-mode run with the same desired values fetches settings for which
    the change dictionary is empty, prints the no-changes line, sends no
    edit and returns [True]. *)
Theorem C7_second_apply_is_a_noop W (G : Github W) n d (st st1 : State W) :
  update_repo_settings n d false st = (Ok true, st1) →
  undisturbed n d (world st) →
  ∃ repo w,
    gh_get_repo n (world st1) = (Ok repo, w)
    ∧ build_changes (from_repo repo) d = ∅
    ∧ update_repo_settings n d false st1
      = (Ok true, mkState w (console st1 ++ [msg_no_changes n])
                          (calls st1 ++ [CallGetRepo n])).
Proof.
  intros Hrun Hquiet.
  assert (Hread : ∃ repo, (gh_get_repo n (world st1)).1 = Ok repo
                          ∧ build_changes (from_repo repo) d = ∅).
  { rewrite update_repo_settings_run in Hrun.
    destruct (gh_get_repo n (world st)) as [[repo|e] w1] eqn:Hget; [|done].
    destruct (Hquiet repo w1 Hget) as [Hsame Hedit]. simpl in Hrun.
    case_bool_decide as Hch.
    - injection Hrun as <-. simpl. by exists repo.
    - destruct (gh_edit repo (build_changes (from_repo repo) d) w1)
        as [[[]|e] w2] eqn:Hed; [|done].
      injection Hrun as <-. simpl.
      exists (patch (build_changes (from_repo repo) d) repo).
      split; [by apply Hedit | apply build_changes_patch]. }
  destruct Hread as (repo & Hget & Hempty).
  destruct (gh_get_repo n (world st1)) as [r w] eqn:Hget1. simpl in Hget. subst r.
  exists repo, w. split; [done|]. split; [done|].
  rewrite update_repo_settings_run, Hget1. simpl.
  by rewrite bool_decide_eq_true_2.
Qed.

Lemma C7_second_apply_on_acme_a :
  ∃ repo w,
    gh_get_repo "acme/a"
      (world (update_repo_settings "acme/a" fix_squash false
                (init (store_of [repo_a] ∅))).2) = (Ok repo, w)
    ∧ build_changes (from_repo repo) fix_squash = ∅
    ∧ update_repo_settings "acme/a" fix_squash false
        (update_repo_settings "acme/a" fix_squash false (init (store_of [repo_a] ∅))).2
      = (Ok true,
         mkState w
           (console (update_repo_settings "acme/a" fix_squash false
                       (init (store_of [repo_a] ∅))).2 ++ [msg_no_changes "acme/a"])
           (calls (update_repo_settings "acme/a" fix_squash false
                     (init (store_of [repo_a] ∅))).2 ++ [CallGetRepo "acme/a"])).
Proof.
  apply (C7_second_apply_is_a_noop Store store_github "acme/a" fix_squash
           (init (store_of [repo_a] ∅))).
  - by vm_compute.
  - intros repo w1 Hget. vm_compute in Hget. injection Hget as <- <-.
    split; [by vm_compute|].
    intros w2 Hedit. vm_compute in Hedit. injection Hedit as <-. by vm_compute.
Defined.



(** C10. An empty string given as a desired value is handled as if the
    value had not been given.  [update_repo_settings] sets no entry for a
    field whose desired value is the empty string, and runs as it would
    with the empty strings left out; [bulk_update_repos] decides which
    repositories to attempt, and does everything else, as it would with the
    empty strings left out, so that with all four values empty every
    repository is skipped; and the [update-merge] command, given four empty
    strings, prints the at-least-one-setting error and exits with code 1
    before creating a client or sending a request. *)
Theorem C10_empty_string_is_absent W (G : Github W) :
  (∀ settings d,
     (squash_title d = Some EmptyString →
      build_changes settings d !! K_squash_title = None)
     ∧ (squash_message d = Some EmptyString →
        build_changes settings d !! K_squash_message = None)
     ∧ (merge_title d = Some EmptyString →
        build_changes settings d !! K_merge_title = None)
     ∧ (merge_message d = Some EmptyString →
        build_changes settings d !! K_merge_message = None))
  ∧ (∀ n d dry_run (st : State W),
       update_repo_settings n d dry_run st
       = update_repo_settings n (without_empty d) dry_run st)
  ∧ (∀ rs d, needs_update rs d = needs_update rs (without_empty d))
  ∧ (∀ rs, needs_update rs all_empty = false)
  ∧ (∀ repos d dry_run (st : State W),
       bulk_update_repos repos d dry_run st
       = bulk_update_repos repos (without_empty d) dry_run st)
  ∧ (∀ create_github_client list_org_repos client_close org
       include_archived include_forks dry_run token (st : State W),
       update_merge_settings create_github_client list_org_repos client_close
         org all_empty include_archived include_forks dry_run token st
       = (Exit 1, mkState (world st) (console st ++ [msg_no_setting]) (calls st))).
Proof.
  split; [|split; [|split; [|split; [|split]]]].
  - intros settings d.
    split; [|split; [|split]]; intros Hd; apply eq_None_not_Some; intros [v Hv].
    + apply build_changes_squash_title in Hv as (? & ? & _). congruence.
    + apply build_changes_squash_message in Hv as (? & ? & _). congruence.
    + apply build_changes_merge_title in Hv as (? & ? & _). congruence.
    + apply build_changes_merge_message in Hv as (? & ? & _). congruence.
  - intros. symmetry. apply update_repo_settings_without_empty.
  - intros. symmetry. apply needs_update_without_empty.
  - done.
  - intros. symmetry. apply bulk_loop_without_empty.
  - done.
Qed.

(** The all-empty invocation, run against the in-memory remote with a
    client that would otherwise be created and a catalog that would
    otherwise list acme/a: no request is sent, the exit code is 1. *)
Lemma C10_update_merge_all_empty :
  update_merge_settings (λ _, ret tt) (λ _ _ _, ret [from_repo repo_a]) (ret tt)
    "acme" all_empty false false false None (init (store_of [repo_a] ∅))
  = (Exit 1, mkState (store_of [repo_a] ∅) ([] ++ [msg_no_setting]) []).
Proof.
  exact (proj2 (proj2 (proj2 (proj2 (proj2
           (C10_empty_string_is_absent Store store_github)))))
           (λ _, ret tt) (λ _ _ _, ret [from_repo repo_a]) (ret tt)
           "acme" false false false None (init (store_of [repo_a] ∅))).
Defined.

(** * Further properties *)

(** ** The predicates and the change dictionary *)

Lemma build_changes_nonempty settings d :
  build_changes settings d ≠ ∅ ↔
  ∃ v,
    due (squash_title d) (allow_squash_merge settings) (squash_merge_commit_title settings) v
    ∨ due (squash_message d) (allow_squash_merge settings)
          (squash_merge_commit_message settings) v
    ∨ due (merge_title d) (allow_merge_commit settings) (merge_commit_title settings) v
    ∨ due (merge_message d) (allow_merge_commit settings) (merge_commit_message settings) v.
Proof.
  split.
  - intros Hne. apply map_choose in Hne as (key & v & Hkv). exists v.
    destruct (decide (key ∈ insertion_order)) as [Hin|Hout];
      [|rewrite build_changes_other in Hkv by done; discriminate].
    unfold insertion_order in Hin.
    repeat (apply elem_of_cons in Hin as [->|Hin]); [..|by apply elem_of_nil in Hin].
    + left. by apply build_changes_squash_title.
    + right; left. by apply build_changes_squash_message.
    + right; right; left. by apply build_changes_merge_title.
    + right; right; right. by apply build_changes_merge_message.
  - intros (v & [Hd|[Hd|[Hd|Hd]]]) Hempty.
    + apply build_changes_squash_title in Hd. rewrite Hempty in Hd. done.
    + apply build_changes_squash_message in Hd. rewrite Hempty in Hd. done.
    + apply build_changes_merge_title in Hd. rewrite Hempty in Hd. done.
    + apply build_changes_merge_message in Hd. rewrite Hempty in Hd. done.
Qed.

Lemma due_None enabled current v : ¬ due None enabled current v.
Proof. by intros [? _]. Qed.

Lemma needs_update_changes (self : RepoSettings) (t m : string) :
  t ≠ EmptyString → m ≠ EmptyString →
  (needs_squash_update self t m = true ↔
   build_changes self (mkDesired (Some t) (Some m) None None) ≠ ∅)
  ∧ (needs_merge_update self t m = true ↔
     build_changes self (mkDesired None None (Some t) (Some m)) ≠ ∅).
Proof.
  intros Ht Hm. rewrite !build_changes_nonempty. simpl.
  unfold needs_squash_update, needs_merge_update. split.
  - destruct (allow_squash_merge self); simpl.
    + rewrite orb_true_iff, !py_ne_true. split.
      * intros [Hd|Hd]; [exists t; left | exists m; right; left]; by repeat split.
      * intros (v & [Hd|[Hd|[Hd|Hd]]]);
          destruct Hd as (Heq & _ & _ & Hc); try discriminate;
          injection Heq as <-; auto.
    + split; [done|].
      intros (v & [Hd|[Hd|[Hd|Hd]]]); destruct Hd as (Heq & _ & He & _); discriminate.
  - destruct (allow_merge_commit self); simpl.
    + rewrite orb_true_iff, !py_ne_true. split.
      * intros [Hd|Hd];
          [exists t; right; right; left | exists m; right; right; right]; by repeat split.
      * intros (v & [Hd|[Hd|[Hd|Hd]]]);
          destruct Hd as (Heq & _ & _ & Hc); try discriminate;
          injection Heq as <-; auto.
    + split; [done|].
      intros (v & [Hd|[Hd|[Hd|Hd]]]); destruct Hd as (Heq & _ & He & _); discriminate.
Qed.

(** X1. [needs_squash_update] and [needs_merge_update] answer the question
    that [update_repo_settings] decides: for a non-empty title and message,
    the predicate is [True] exactly when reconciling towards that title and
    message alone would change something. *)
Theorem X1_needs_update_agrees_with_changes (self : RepoSettings) (t m : string) :
  t ≠ EmptyString → m ≠ EmptyString →
  (needs_squash_update self t m = true ↔
   build_changes self (mkDesired (Some t) (Some m) None None) ≠ ∅)
  ∧ (needs_merge_update self t m = true ↔
     build_changes self (mkDesired None None (Some t) (Some m)) ≠ ∅).
Proof. apply needs_update_changes. Qed.

Lemma X1_on_acme_a :
  "PR_TITLE" ≠ EmptyString ∧ "PR_BODY" ≠ EmptyString
  ∧ (needs_squash_update (from_repo repo_a) "PR_TITLE" "PR_BODY" = true ↔
     build_changes (from_repo repo_a)
       (mkDesired (Some "PR_TITLE") (Some "PR_BODY") None None) ≠ ∅)
  ∧ (needs_merge_update (from_repo repo_a) "PR_TITLE" "PR_BODY" = true ↔
     build_changes (from_repo repo_a)
       (mkDesired None None (Some "PR_TITLE") (Some "PR_BODY")) ≠ ∅).
Proof.
  assert (H1 : "PR_TITLE" ≠ EmptyString) by discriminate.
  assert (H2 : "PR_BODY" ≠ EmptyString) by discriminate.
  split; [exact H1|]. split; [exact H2|].
  exact (X1_needs_update_agrees_with_changes (from_repo repo_a) "PR_TITLE" "PR_BODY" H1 H2).
Defined.

(** ** What a dry run prints *)





(** ** The counters of a batch, exactly *)

Lemma bulk_loop_exact {W} `{Github W} repos d dry_run sc tc (st st' : State W) s t :
  bulk_loop repos d dry_run sc tc st = (Ok (s, t), st') →
  t = (tc + count_if (λ rs, needs_update rs d) repos)%nat
  ∧ (dry_run = true → s = (sc + count_if (λ rs, needs_update rs d) repos)%nat).
Proof.
  revert sc tc st. induction repos as [|rs rest IH]; intros sc tc st.
  - simpl. unfold ret. intros [= <- <- _]. unfold count_if. simpl. lia.
  - unfold count_if in *. rewrite filter_cons.
    destruct (needs_update rs d) eqn:Hn.
    + rewrite decide_True by done. rewrite bulk_loop_attempt by done.
      destruct (update_repo_settings _ _ _ _) as [[ok|e] st1] eqn:Hrun; [|done].
      intros Hrest. apply IH in Hrest as [-> Hdry]. simpl. split; [lia|].
      intros ->. rewrite Hdry by done.
      rewrite update_repo_settings_run in Hrun.
      destruct (gh_get_repo _ _) as [[repo|e] w]; [|done]. simpl in Hrun.
      case_bool_decide; injection Hrun as <- _; lia.
    + rewrite decide_False by (by intros ?). rewrite bulk_loop_skip by done.
      intros Hrest. by apply IH in Hrest.
Qed.

(** X3. When [bulk_update_repos] returns, the attempted counter is the
    number of snapshots with an applicable merge method enabled, whatever
    the remote answered; and after a dry run the succeeded counter is that
    same number, so the would-update figure of the summary also counts the
    repositories that need no change. *)
Theorem X3_batch_counts_exactly W (G : Github W) repos d dry_run (st : State W) s t :
  (bulk_update_repos repos d dry_run st).1 = Ok (s, t) →
  t = count_if (λ rs, needs_update rs d) repos
  ∧ (dry_run = true → s = t).
Proof.
  unfold bulk_update_repos.
  destruct (bulk_loop repos d dry_run 0 0 st) as [r st'] eqn:Hrun. simpl.
  intros ->. apply bulk_loop_exact in Hrun as [-> Hdry].
  split; [done|]. intros Hd. by rewrite Hdry.
Qed.

Lemma X3_on_scenario_d :
  (bulk_update_repos (from_repo <$> [repo_a; repo_b; repo_c]) fix_squash true
     (init (store_of [repo_a; repo_b; repo_c] ∅))).1 = Ok (2, 2)
  ∧ 2 = count_if (λ rs, needs_update rs fix_squash) (from_repo <$> [repo_a; repo_b; repo_c])
  ∧ (true = true → 2 = 2).
Proof.
  assert (Hrun : (bulk_update_repos (from_repo <$> [repo_a; repo_b; repo_c]) fix_squash
                    true (init (store_of [repo_a; repo_b; repo_c] ∅))).1 = Ok (2, 2)).
  { by vm_compute. }
  split; [exact Hrun|].
  exact (X3_batch_counts_exactly Store store_github _ _ _ _ 2 2 Hrun).
Defined.

(** ** The catalog *)

Lemma fetch_loop_app repos repos_settings :
  fetch_loop repos repos_settings = (repos_settings ++ (from_repo <$> repos))%list.
Proof.
  revert repos_settings. induction repos as [|repo rest IH]; intros acc; simpl.
  - by rewrite app_nil_r.
  - by rewrite IH, <- app_assoc.
Qed.

Lemma fetch_repos_settings_fmap repos : fetch_repos_settings repos = from_repo <$> repos.
Proof.
  destruct repos as [|r1 [|r2 rest]]; [done..|].
  unfold fetch_repos_settings. by rewrite fetch_loop_app.
Qed.

(** X4. [fetch_repos_settings] returns one settings record per repository,
    in the order given: the short cuts taken for an empty list and for a
    single repository give what the loop would. *)
Theorem X4_fetch_repos_settings_maps repos :
  fetch_repos_settings repos = from_repo <$> repos
  ∧ length (fetch_repos_settings repos) = length repos.
Proof.
  split; [apply fetch_repos_settings_fmap|].
  by rewrite fetch_repos_settings_fmap, length_fmap.
Qed.

Lemma filter_loop_spec all_repos include_archived include_forks filtered sa sf :
  filter_loop all_repos include_archived include_forks filtered sa sf
  = ((filtered ++ filter (λ r, kept include_archived include_forks r) all_repos)%list,
     (sa + count_if (λ r, negb include_archived && repo_archived r) all_repos)%nat,
     (sf + count_if (λ r, (include_archived || negb (repo_archived r))
                          && (negb include_forks && repo_fork r)) all_repos)%nat).
Proof.
  revert filtered sa sf. unfold count_if, kept.
  induction all_repos as [|repo rest IH]; intros filtered sa sf; simpl.
  - by rewrite app_nil_r, !Nat.add_0_r.
  - rewrite !filter_cons, !IH.
    destruct include_archived, include_forks, (repo_archived repo), (repo_fork repo);
      simpl; rewrite <- ?app_assoc; simpl;
      repeat (match goal with |- (_, _) = (_, _) => f_equal end);
      first [done | lia].
Qed.


Lemma filter_loop_total all_repos include_archived include_forks :
  (length (filter (λ r, kept include_archived include_forks r) all_repos)
   + count_if (λ r, negb include_archived && repo_archived r) all_repos
   + count_if (λ r, (include_archived || negb (repo_archived r))
                    && (negb include_forks && repo_fork r)) all_repos
   = length all_repos)%nat.
Proof.
  unfold count_if, kept. induction all_repos as [|repo rest IH]; [done|].
  rewrite !filter_cons.
  destruct include_archived, include_forks, (repo_archived repo), (repo_fork repo);
    simpl in *; lia.
Qed.



(** X6. The loop of [get_target_repos] accounts for every listed
    repository once: it is kept, or counted as archived, or counted as a
    fork.  An archived fork is counted as archived, not as a fork. *)
Theorem X6_skip_counters all_repos include_archived include_forks :
  let r := filter_loop all_repos include_archived include_forks [] 0 0 in
  r.1.1 = filter (λ r, kept include_archived include_forks r) all_repos
  ∧ r.1.2 = count_if (λ r, negb include_archived && repo_archived r) all_repos
  ∧ r.2 = count_if (λ r, (include_archived || negb (repo_archived r))
                         && (negb include_forks && repo_fork r)) all_repos
  ∧ (length r.1.1 + r.1.2 + r.2 = length all_repos)%nat.
Proof.
  rewrite filter_loop_spec. simpl. repeat split.
  apply filter_loop_total.
Qed.

(** X7. A target with a slash is fetched as a single repository and
    returned as it is: the archived and fork filters are not applied to
    it, and a failing fetch is raised to the caller. *)
Theorem X7_single_repository_bypasses_filters W (G : Github W) (C : GithubCatalog W)
    target include_archived include_forks (st : State W) :
  str_in "/" target = true →
  get_target_repos target include_archived include_forks st
  = match gh_get_repo target (world st) with
    | (Ok repo, w) =>
        (Ok [from_repo repo],
         mkState w
           (console st ++ ["[dim]Fetching single repository " +:+ target +:+ "...[/dim]"])
           (calls st ++ [CallGetRepo target]))
    | (Raised e, w) =>
        (Raised e,
         mkState w
           (console st ++ ["[dim]Fetching single repository " +:+ target +:+ "...[/dim]"])
           (calls st ++ [CallGetRepo target]))
    end.
Proof.
  intros Hslash. unfold get_target_repos. rewrite Hslash.
  unfold bind, console_print, get_repo, ret. simpl.
  by destruct (gh_get_repo target (world st)) as [[repo|e] w].
Qed.

(** The archived acme/old is returned although archived repositories were
    not asked for. *)
Lemma X7_on_acme_old :
  str_in "/" "acme/old" = true
  ∧ repo_archived repo_old = true
  ∧ (get_target_repos "acme/old" false false (init acme)).1 = Ok [from_repo repo_old].
Proof.
  split; [reflexivity|]. split; [reflexivity|].
  rewrite (X7_single_repository_bypasses_filters Directory directory_github
             directory_catalog "acme/old" false false (init acme) eq_refl).
  reflexivity.
Defined.

(** X8. The fallback of [get_target_repos].  When [get_organization]
    raises, [get_user] is tried on the same name, and if that raises too it
    is the user error that reaches the caller, the organization error being
    dropped.  The fallback covers the lookup only: when the organization is
    found and listing its repositories raises, that error is raised and the
    user is not tried. *)
Theorem X8_organization_then_user W (G : Github W) (C : GithubCatalog W)
    target include_archived include_forks (st : State W) :
  str_in "/" target = false →
  (∀ e1 w1 e2 w2,
     gh_get_organization target (world st) = (Raised e1, w1) →
     gh_get_user target w1 = (Raised e2, w2) →
     get_target_repos target include_archived include_forks st
     = (Raised e2, mkState w2 (console st) (calls st)))
  ∧ (∀ owner w1 e w2,
       gh_get_organization target (world st) = (Ok owner, w1) →
       gh_get_repos owner w1 = (Raised e, w2) →
       (get_target_repos target include_archived include_forks st).1 = Raised e)
  ∧ (∀ e1 w1 owner w2 all_repos w3,
       gh_get_organization target (world st) = (Raised e1, w1) →
       gh_get_user target w1 = (Ok owner, w2) →
       gh_get_repos owner w2 = (Ok all_repos, w3) →
       (get_target_repos target include_archived include_forks st).1
       = Ok (from_repo <$> filter (λ r, kept include_archived include_forks r) all_repos)).
Proof.
  intros Hslash. unfold get_target_repos. rewrite Hslash. split; [|split].
  - intros e1 w1 e2 w2 Horg Huser.
    unfold bind at 1, try_except, bind at 1, request. rewrite Horg. simpl.
    unfold bind at 1. simpl. by rewrite Huser.
  - intros owner w1 e w2 Horg Hlist.
    unfold bind at 1, try_except, bind at 1, request. rewrite Horg. simpl.
    unfold bind at 1. simpl. by rewrite Hlist.
  - intros e1 w1 owner w2 all_repos w3 Horg Huser Hlist.
    unfold bind at 1, try_except, bind at 1, request. rewrite Horg. simpl.
    unfold bind at 1. simpl. rewrite Huser. simpl.
    unfold bind at 1. simpl. rewrite Hlist. simpl.
    rewrite !filter_loop_spec. simpl.
    unfold bind, console_print, ret. simpl.
    repeat case_bool_decide; simpl; by rewrite fetch_repos_settings_fmap.
Qed.

(** alice is a user, not an organization; nobody is neither. *)
Lemma X8_on_alice_and_nobody :
  str_in "/" "alice" = false
  ∧ (get_target_repos "alice" false false (init acme)).1 = Ok [from_repo repo_b]
  ∧ get_target_repos "nobody" false false (init acme)
    = (Raised (Exception "404 Not Found"), mkState acme [] []).
Proof.
  split; [reflexivity|]. split.
  - exact (proj2 (proj2 (X8_organization_then_user Directory directory_github
             directory_catalog "alice" false false (init acme) eq_refl))
             (Exception "404 Not Found") acme (NamedUser "alice") acme [repo_b] acme
             eq_refl eq_refl eq_refl).
  - exact (proj1 (X8_organization_then_user Directory directory_github
             directory_catalog "nobody" false false (init acme) eq_refl)
             (Exception "404 Not Found") acme (Exception "404 Not Found") acme
             eq_refl eq_refl).
Defined.

(** ** The summary view *)

Lemma py_eq_negb_ne a b : py_eq a b = negb (py_ne a b).
Proof. unfold py_eq, py_ne. by rewrite bool_decide_not, negb_involutive. Qed.

Lemma needs_squash_update_canonical r :
  needs_squash_update r "PR_TITLE" "PR_BODY"
  = allow_squash_merge r && negb (uses_pr_title_body r).
Proof.
  unfold needs_squash_update, uses_pr_title_body. rewrite !py_eq_negb_ne.
  by destruct (allow_squash_merge r), (py_ne _ _), (py_ne _ _).
Qed.

Lemma needs_merge_update_canonical r :
  needs_merge_update r "PR_TITLE" "PR_TITLE"
  = allow_merge_commit r && negb (uses_pr_title r).
Proof.
  unfold needs_merge_update, uses_pr_title. rewrite !py_eq_negb_ne.
  by destruct (allow_merge_commit r), (py_ne _ _), (py_ne _ _).
Qed.

Lemma needs_attention_cond_canonical r :
  needs_attention_cond r
  = needs_squash_update r "PR_TITLE" "PR_BODY" || needs_merge_update r "PR_TITLE" "PR_TITLE".
Proof.
  unfold needs_attention_cond, needs_squash_update, needs_merge_update.
  by destruct (allow_squash_merge r), (allow_merge_commit r).
Qed.

Lemma count_if_cons {A} (p : A → bool) x xs :
  count_if p (x :: xs) = ((if p x then 1 else 0) + count_if p xs)%nat.
Proof. unfold count_if. rewrite filter_cons. by destruct (p x). Qed.

Lemma count_if_split {A} (p q : A → bool) xs :
  (∀ x, q x = true → p x = true) →
  count_if p xs = (count_if q xs + count_if (λ x, p x && negb (q x)) xs)%nat.
Proof.
  intros Hqp. induction xs as [|x xs IH]; [done|].
  rewrite !count_if_cons, IH. specialize (Hqp x).
  destruct (p x), (q x); simpl; first [lia | by specialize (Hqp eq_refl)].
Qed.

Lemma count_if_ext {A} (p q : A → bool) xs :
  (∀ x, p x = q x) → count_if p xs = count_if q xs.
Proof.
  intros Hpq. induction xs as [|x xs IH]; [done|].
  by rewrite !count_if_cons, IH, Hpq.
Qed.

(** X9. The two need-update figures of the summary are the numbers of
    repositories for which [needs_squash_update()] and
    [needs_merge_update()], called with their default arguments, answer
    [True]; they are never negative.  The repositories listed as needing
    updates are those for which one of the two does, in the order given. *)
Theorem X9_summary_counts repos :
  squash_needs_update (summarize repos)
  = Z.of_nat (count_if (λ r, needs_squash_update r "PR_TITLE" "PR_BODY") repos)
  ∧ merge_needs_update (summarize repos)
    = Z.of_nat (count_if (λ r, needs_merge_update r "PR_TITLE" "PR_TITLE") repos)
  ∧ needs_attention (summarize repos)
    = filter (λ r, needs_squash_update r "PR_TITLE" "PR_BODY"
                   || needs_merge_update r "PR_TITLE" "PR_TITLE") repos
  ∧ (0 ≤ squash_needs_update (summarize repos))%Z
  ∧ (0 ≤ merge_needs_update (summarize repos))%Z.
Proof.
  assert (Hs : squash_needs_update (summarize repos)
               = Z.of_nat (count_if (λ r, needs_squash_update r "PR_TITLE" "PR_BODY") repos)).
  { simpl. rewrite (count_if_split allow_squash_merge uses_pr_title_body).
    - rewrite (count_if_ext _ _ _ needs_squash_update_canonical). lia.
    - intros r. unfold uses_pr_title_body. by destruct (allow_squash_merge r). }
  assert (Hm : merge_needs_update (summarize repos)
               = Z.of_nat (count_if (λ r, needs_merge_update r "PR_TITLE" "PR_TITLE") repos)).
  { simpl. rewrite (count_if_split allow_merge_commit uses_pr_title).
    - rewrite (count_if_ext _ _ _ needs_merge_update_canonical). lia.
    - intros r. unfold uses_pr_title. by destruct (allow_merge_commit r). }
  split; [done|]. split; [done|]. split; [|rewrite Hs, Hm; lia].
  simpl. apply list_filter_iff. intros r. by rewrite needs_attention_cond_canonical.
Qed.

(** X10. A repository is listed as needing updates exactly when the list
    of issues printed next to its name is not empty; the list has at most
    four entries. *)
Theorem X10_listed_iff_issues (r : RepoSettings) :
  (needs_attention_cond r = true ↔ issues_of r ≠ [])
  ∧ (length (issues_of r) ≤ 4)%nat.
Proof.
  unfold needs_attention_cond, issues_of.
  destruct (allow_squash_merge r), (allow_merge_commit r),
    (py_ne (squash_merge_commit_title r) _), (py_ne (squash_merge_commit_message r) _),
    (py_ne (merge_commit_title r) _), (py_ne (merge_commit_message r) _);
    simpl; (split; [split; [done | by intros ?] | lia]).
Qed.

(** X11. The summary and the reconciliation agree: a repository is listed
    as needing updates exactly when reconciling it towards the canonical
    values (squash PR_TITLE and PR_BODY, merge PR_TITLE and PR_TITLE) would
    change something. *)
Theorem X11_listed_iff_reconcile_would_change (r : RepoSettings) :
  needs_attention_cond r = true ↔ build_changes r canonical ≠ ∅.
Proof.
  rewrite needs_attention_cond_canonical, orb_true_iff.
  rewrite (proj1 (needs_update_changes r "PR_TITLE" "PR_BODY" ltac:(done) ltac:(done))).
  rewrite (proj2 (needs_update_changes r "PR_TITLE" "PR_TITLE" ltac:(done) ltac:(done))).
  rewrite !build_changes_nonempty. simpl. split.
  - intros [(v & [Hd|[Hd|[Hd|Hd]]])|(v & [Hd|[Hd|[Hd|Hd]]])];
      try (by apply due_None in Hd); exists v; tauto.
  - intros (v & [Hd|[Hd|[Hd|Hd]]]); [left|left|right|right]; exists v; tauto.
Qed.

(** ** Token discovery *)

Lemma truthy_false_cases (o : option string) :
  truthy o = false → o = None ∨ o = Some EmptyString.
Proof. destruct o as [[|c s]|]; simpl; auto. discriminate. Qed.

(** X12. [get_github_token] takes the first source that yields a
    non-empty token: the explicit argument, whatever the environment and
    [gh] hold; else the GITHUB_TOKEN variable, whatever [gh] would print;
    else the stripped output of a successful [gh auth token].  An explicit
    empty string counts as no argument.  A line is printed only for the
    two implicit sources. *)
Theorem X12_token_priority (strip : string → string) (token : option string) (os : Os) :
  (∀ t, token = Some t → t ≠ EmptyString →
        get_github_token strip token os = (Ok t, []))
  ∧ (truthy token = false →
     ∀ t, environ os !! "GITHUB_TOKEN" = Some t → t ≠ EmptyString →
          get_github_token strip token os = (Ok t, [msg_env_token]))
  ∧ (truthy token = false → truthy (environ os !! "GITHUB_TOKEN") = false →
     ∀ stdout, gh_auth_token os = GhStdout stdout → strip stdout ≠ EmptyString →
               get_github_token strip token os = (Ok (strip stdout), [msg_gh_token])).
Proof.
  split; [|split].
  - intros t -> Ht. by destruct t.
  - intros Htok t Henv Ht. unfold get_github_token. rewrite Henv.
    apply truthy_false_cases in Htok as [-> | ->]; by destruct t.
  - intros Htok Henv stdout Hgh Hs. unfold get_github_token. rewrite Hgh.
    apply truthy_false_cases in Htok as [-> | ->];
      apply truthy_false_cases in Henv as [-> | ->];
      simpl; by destruct (strip stdout).
Qed.

Lemma X12_explicit_empty_token_falls_through :
  truthy (Some EmptyString) = false
  ∧ get_github_token id (Some EmptyString)
      (mkOs {[ "GITHUB_TOKEN" := "ghp_env" ]} (GhStdout "ghp_cli"))
    = (Ok "ghp_env", [msg_env_token]).
Proof.
  split; [reflexivity|].
  apply (proj1 (proj2 (X12_token_priority id (Some EmptyString)
           (mkOs {[ "GITHUB_TOKEN" := "ghp_env" ]} (GhStdout "ghp_cli")))));
    [reflexivity | reflexivity | discriminate].
Defined.

(** X13. [get_github_token] never returns an empty token, so
    [create_github_client] never builds a client from one.  It raises only
    after all three sources failed and then prints nothing: the no-token
    error when [gh] is missing, exits with a non-zero status or prints only
    what [strip] removes; any other exception of the [gh] run as it is. *)
Theorem X13_token_never_empty (strip : string → string) (token : option string) (os : Os) :
  (∀ t out, get_github_token strip token os = (Ok t, out) → t ≠ EmptyString)
  ∧ (∀ c base_url out,
       create_github_client strip token base_url os = (Ok c, out) →
       client_token c ≠ EmptyString ∧ client_base_url c = base_url)
  ∧ (∀ e out,
       get_github_token strip token os = (Raised e, out) →
       out = [] ∧ truthy token = false
       ∧ truthy (environ os !! "GITHUB_TOKEN") = false
       ∧ (e = Exception msg_no_token ∨ gh_auth_token os = GhRaises e))
  ∧ (truthy token = false → truthy (environ os !! "GITHUB_TOKEN") = false →
     gh_auth_token os = GhCalledProcessError ∨ gh_auth_token os = GhFileNotFoundError
     ∨ (∃ stdout, gh_auth_token os = GhStdout stdout ∧ strip stdout = EmptyString) →
     get_github_token strip token os = (Raised (Exception msg_no_token), [])).
Proof.
  assert (Hok : ∀ t out, get_github_token strip token os = (Ok t, out) → t ≠ EmptyString).
  { intros t out. unfold get_github_token.
    destruct token as [[|c s]|]; try (by intros [= <- <-]);
      destruct (environ os !! "GITHUB_TOKEN") as [[|c' s']|]; try (by intros [= <- <-]);
      destruct (gh_auth_token os) as [stdout| | |e]; try done;
      destruct (strip stdout) eqn:Hs; simpl; try done; by intros [= <- <-]. }
  split; [exact Hok|]. split; [|split].
  - intros c base_url out. unfold create_github_client.
    destruct (get_github_token strip token os) as [[t|e] out'] eqn:Hget; [|done].
    intros [= <- <-]. simpl. split; [by eapply Hok | done].
  - intros e out. unfold get_github_token.
    destruct token as [[|c s]|]; try done;
      destruct (environ os !! "GITHUB_TOKEN") as [[|c' s']|]; try done;
      destruct (gh_auth_token os) as [stdout| | |e']; simpl;
      try (destruct (strip stdout); simpl); try done;
      intros [= <- <-]; auto.
  - intros Htok Henv Hgh. unfold get_github_token.
    apply truthy_false_cases in Htok as [-> | ->];
      apply truthy_false_cases in Henv as [-> | ->];
      destruct Hgh as [-> | [-> | (stdout & -> & Hs)]]; simpl; rewrite ?Hs; done.
Qed.

Lemma X13_no_token_anywhere :
  truthy None = false
  ∧ get_github_token id None (mkOs ∅ GhFileNotFoundError)
    = (Raised (Exception msg_no_token), []).
Proof.
  split; [reflexivity|].
  apply (proj2 (proj2 (proj2 (X13_token_never_empty id None (mkOs ∅ GhFileNotFoundError)))));
    [reflexivity | reflexivity | by right; left].
Defined.

(** ** The commands *)

Lemma get_github_token_raises_silent strip token os e out :
  get_github_token strip token os = (Raised e, out) → out = [].
Proof.
  unfold get_github_token.
  destruct token as [[|c s]|]; try done;
    destruct (environ os !! "GITHUB_TOKEN") as [[|c' s']|]; try done;
    destruct (gh_auth_token os) as [stdout| | |e']; simpl;
    try (destruct (strip stdout); simpl); try done;
    by intros [= <- <-].
Qed.

Lemma resolve_client_raises {W} strip os token (st : State W) e :
  (get_github_token strip token os).1 = Raised e →
  resolve_client strip os token st = (Raised e, st).
Proof.
  unfold resolve_client, create_github_client.
  destruct (get_github_token strip token os) as [[t|e'] out] eqn:Hget; [done|].
  simpl. intros [= ->]. apply get_github_token_raises_silent in Hget as ->.
  rewrite app_nil_r. by destruct st.
Qed.

(** X14. When no token can be found, each of the three commands prints
    the error, exits with code 1 and leaves the remote alone: the
    repositories are never listed and no request is sent. *)
Theorem X14_no_token_exits_before_any_request W (G : Github W)
    strip os token list_org_repos client_close render_table
    org d include_archived include_forks dry_run verbose (st : State W) e :
  (get_github_token strip token os).1 = Raised e →
  (any [truthy (squash_title d); truthy (squash_message d);
        truthy (merge_title d); truthy (merge_message d)] = true →
   update_merge_settings (resolve_client strip os) list_org_repos client_close
     org d include_archived include_forks dry_run token st
   = (Exit 1, mkState (world st) (console st ++ [msg_error e]) (calls st)))
  ∧ list_repos (resolve_client strip os) list_org_repos client_close render_table
      org include_archived include_forks verbose token st
    = (Exit 1, mkState (world st) (console st ++ [msg_error e]) (calls st))
  ∧ fix_squash_defaults (resolve_client strip os) list_org_repos client_close
      org include_archived include_forks dry_run token st
    = (Exit 1, mkState (world st) (console st ++ [msg_error e]) (calls st)).
Proof.
  intros Hget. split; [|split].
  - intros Hany. unfold update_merge_settings, update_merge_body. rewrite Hany. simpl.
    unfold bind at 1. by rewrite (resolve_client_raises _ _ _ _ _ Hget).
  - unfold list_repos, list_repos_body.
    unfold bind at 1. by rewrite (resolve_client_raises _ _ _ _ _ Hget).
  - unfold fix_squash_defaults, fix_squash_body.
    unfold bind at 1. by rewrite (resolve_client_raises _ _ _ _ _ Hget).
Qed.

Lemma X14_fix_squash_without_token :
  (get_github_token id None (mkOs ∅ GhFileNotFoundError)).1 = Raised (Exception msg_no_token)
  ∧ fix_squash_defaults (resolve_client id (mkOs ∅ GhFileNotFoundError))
      (λ _ _ _, ret [from_repo repo_a]) (ret tt) "acme" false false false None
      (init (store_of [repo_a] ∅))
    = (Exit 1,
       mkState (store_of [repo_a] ∅) ([] ++ [msg_error (Exception msg_no_token)]) []).
Proof.
  split; [reflexivity|].
  exact (proj2 (proj2 (X14_no_token_exits_before_any_request Store store_github
           id (mkOs ∅ GhFileNotFoundError) None (λ _ _ _, ret [from_repo repo_a]) (ret tt)
           (λ _, EmptyString) "acme" fix_squash false false false false
           (init (store_of [repo_a] ∅)) (Exception msg_no_token) eq_refl))).
Defined.





Lemma sends_no_edit_bind {W A B} (m : M W A) (k : A → M W B) :
  sends_no_edit m → (∀ a, sends_no_edit (k a)) → sends_no_edit (bind m k).
Proof.
  intros Hm Hk st. unfold bind. specialize (Hm st).
  destruct (m st) as [[a|e] st1]; simpl in *; [|done].
  by rewrite Hk.
Qed.

Lemma sends_no_edit_print {W} line : sends_no_edit (@console_print W line).
Proof. by intros st. Qed.

Lemma sends_no_edit_ret {W A} (a : A) : sends_no_edit (@ret W A a).
Proof. by intros st. Qed.

Lemma sends_no_edit_if {W A} (b : bool) (m1 m2 : M W A) :
  sends_no_edit m1 → sends_no_edit m2 → sends_no_edit (if b then m1 else m2).
Proof. by destruct b. Qed.

Lemma sends_no_edit_dry_batch {W} `{Github W} repos d :
  sends_no_edit (bulk_update_repos repos d true).
Proof.
  intros st. unfold bulk_update_repos, edit_count.
  destruct (bulk_loop_calls repos d true 0 0 st) as (new & -> & _ & Hdry).
  by rewrite filter_app, Hdry, app_nil_r.
Qed.

Lemma sends_no_edit_for_each_print {W A} (xs : list A) (f : A → string) :
  sends_no_edit (@for_each W A xs (λ x, console_print (f x))).
Proof. intros st. by rewrite for_each_print. Qed.

Ltac no_edit_print_step :=
  match goal with
  | |- sends_no_edit (bind _ _) => apply sends_no_edit_bind; [|intros ?]
  | |- sends_no_edit (console_print _) => apply sends_no_edit_print
  | |- sends_no_edit (ret _) => apply sends_no_edit_ret
  | |- sends_no_edit (for_each _ _) => apply sends_no_edit_for_each_print
  | |- sends_no_edit (match ?l with [] => _ | _ :: _ => _ end) =>
      destruct l; cbv beta iota
  | |- sends_no_edit (if _ then _ else _) => apply sends_no_edit_if
  end.

Lemma sends_no_edit_display {W} render_table repos verbose :
  sends_no_edit (@display_repos_table W render_table repos verbose).
Proof.
  unfold display_repos_table. destruct verbose; simpl; repeat no_edit_print_step.
Qed.

Ltac no_edit_step :=
  lazymatch goal with
  | |- sends_no_edit (bind _ _) => apply sends_no_edit_bind; [|intros ?]
  | |- sends_no_edit (console_print _) => apply sends_no_edit_print
  | |- sends_no_edit (ret _) => apply sends_no_edit_ret
  | |- sends_no_edit (bulk_update_repos _ _ true) => apply sends_no_edit_dry_batch
  | |- sends_no_edit (display_repos_table _ _ _) => apply sends_no_edit_display
  | |- sends_no_edit (if _ then _ else _) => apply sends_no_edit_if
  | |- sends_no_edit _ => assumption
  end.

Ltac no_edit_steps := repeat no_edit_step.

(** X16. A dry run writes nothing.  If creating the client, listing the
    repositories and closing the client send no edit, then [update-merge]
    and [fix-squash] in dry-run mode (the default) send none either, and
    neither does [list] in any case, however the command ends. *)
Theorem X16_dry_run_commands_send_no_edit W (G : Github W)
    create_github_client list_org_repos client_close render_table
    org d include_archived include_forks verbose token (st : State W) :
  sends_no_edit (create_github_client token) →
  sends_no_edit (list_org_repos org include_archived include_forks) →
  sends_no_edit client_close →
  edit_count (update_merge_settings create_github_client list_org_repos client_close
                org d include_archived include_forks true token st).2 = edit_count st
  ∧ edit_count (fix_squash_defaults create_github_client list_org_repos client_close
                  org include_archived include_forks true token st).2 = edit_count st
  ∧ edit_count (list_repos create_github_client list_org_repos client_close render_table
                  org include_archived include_forks verbose token st).2 = edit_count st.
Proof.
  intros Hcreate Hlist Hclose.
  assert (Hbody : sends_no_edit
            (update_merge_body create_github_client list_org_repos client_close
               org d include_archived include_forks true token)).
  { unfold update_merge_body. no_edit_steps. }
  assert (Hfix : sends_no_edit
            (fix_squash_body create_github_client list_org_repos client_close
               org include_archived include_forks true token)).
  { unfold fix_squash_body. no_edit_steps. }
  assert (Hshow : sends_no_edit
            (list_repos_body create_github_client list_org_repos client_close render_table
               org include_archived include_forks verbose token)).
  { unfold list_repos_body. no_edit_steps. }
  split; [|split].
  - unfold update_merge_settings. destruct (negb _); [done|].
    specialize (Hbody st). by destruct (update_merge_body _ _ _ _ _ _ _ _ _ _) as [[?|?] ?].
  - unfold fix_squash_defaults.
    specialize (Hfix st). by destruct (fix_squash_body _ _ _ _ _ _ _ _ _) as [[?|?] ?].
  - unfold list_repos.
    specialize (Hshow st). by destruct (list_repos_body _ _ _ _ _ _ _ _ _ _) as [[?|?] ?].
Qed.

Lemma X16_dry_run_on_acme :
  edit_count (update_merge_settings (λ _, ret tt)
                (λ _ _ _, ret (from_repo <$> [repo_a; repo_b; repo_c])) (ret tt)
                "acme" fix_squash false false true None
                (init (store_of [repo_a; repo_b; repo_c] ∅))).2
  = edit_count (init (store_of [repo_a; repo_b; repo_c] ∅))
  ∧ edit_count (fix_squash_defaults (λ _, ret tt)
                  (λ _ _ _, ret (from_repo <$> [repo_a; repo_b; repo_c])) (ret tt)
                  "acme" false false true None
                  (init (store_of [repo_a; repo_b; repo_c] ∅))).2
    = edit_count (init (store_of [repo_a; repo_b; repo_c] ∅))
  ∧ edit_count (list_repos (λ _, ret tt)
                  (λ _ _ _, ret (from_repo <$> [repo_a; repo_b; repo_c])) (ret tt)
                  (λ _, EmptyString) "acme" false false false None
                  (init (store_of [repo_a; repo_b; repo_c] ∅))).2
    = edit_count (init (store_of [repo_a; repo_b; repo_c] ∅)).
Proof.
  exact (X16_dry_run_commands_send_no_edit Store store_github
           (λ _, ret tt) (λ _ _ _, ret (from_repo <$> [repo_a; repo_b; repo_c])) (ret tt)
           (λ _, EmptyString) "acme" fix_squash false false false None
           (init (store_of [repo_a; repo_b; repo_c] ∅))
           (λ _, eq_refl) (λ _, eq_refl) (λ _, eq_refl)).
Defined.
